(** * mkfw: the ODROID-GO firmware image builder

    A shallow embedding of the [main.c] of mkfw, version 1.1.0 (the one
    with the PNG tile decoder; version 1.0.0 differs in the tile block
    only), and the properties of the image it writes.

    Conventions.
    - A byte is a [Z] in [0, 256); fixed-width C integers are [Z] with the
      wrap-around written out ([u8], [u16], [u32], [u64]).
    - [unsigned long] and [long] are the 64-bit types of the LP64 platforms
      the tool is built for (Linux, macOS).
    - A C string is a [string] of its characters before the terminator;
      [EmptyString] plays the terminating NUL.
    - [main] runs in a small state-and-error monad: the state is the
      running checksum and the output stream, and it survives an error,
      as the partially written file does. *)

From Stdlib Require Import ZArith Arith List String Ascii Bool Lia Setoid.
From Stdlib Require Import DecimalString HexadecimalString.
Import ListNotations.
Local Open Scope string_scope.
Local Open Scope list_scope.
Local Open Scope Z_scope.

(* ================================================================== *)
(** ** Machine integers and byte order *)

Module C.

Definition u8 (x : Z) : Z := x mod 256.
Definition u16 (x : Z) : Z := x mod 65536.
Definition u32 (x : Z) : Z := x mod 4294967296.
Definition u64 (x : Z) : Z := x mod 18446744073709551616.

(** [int]: the wrap-around the usual compilers give signed overflow. *)
Definition i32 (x : Z) : Z :=
  let y := u32 x in if y <? 2147483648 then y else y - 4294967296.

Definition ULONG_MAX : Z := 18446744073709551615.
Definition LONG_MAX : Z := 9223372036854775807.
Definition ERANGE : Z := 34.

(** The bytes of [htole16 x] and [htole32 x] as they sit in memory. *)
Definition le16 (x : Z) : list Z :=
  [Z.land x 255; Z.land (Z.shiftr x 8) 255].

Definition le32 (x : Z) : list Z :=
  [Z.land x 255; Z.land (Z.shiftr x 8) 255;
   Z.land (Z.shiftr x 16) 255; Z.land (Z.shiftr x 24) 255].

(** Reading a little-endian field back (used by statements only). *)
Fixpoint le_value (bs : list Z) : Z :=
  match bs with
  | [] => 0
  | b :: t => b + 256 * le_value t
  end.

(** [memset (p, 0, n)] *)
Definition zeros (n : nat) : list Z := repeat 0 n.

(** The value of a [char] of a C string. *)
Definition code (c : ascii) : Z := Z.of_N (N_of_ascii c).

(** [s[i]], with the terminating NUL at [i = strlen s]. *)
Definition char_at (s : string) (i : nat) : Z :=
  match String.get i s with
  | Some c => code c
  | None => 0
  end.

Definition bytes_of_string (s : string) : list Z :=
  map code (list_ascii_of_string s).

(** [strncpy (dst, src, n)]: the [n] bytes it leaves in [dst], [src]
    being the characters before the terminator. Once the terminator is
    reached the rest of [dst] is filled with NUL. *)
Fixpoint strncpy (src : list Z) (n : nat) {struct n} : list Z :=
  match n with
  | O => []
  | S n' =>
      match src with
      | [] => zeros n
      | c :: t => c :: strncpy t n'
      end
  end.

(** [strcmp (a, b) == 0] *)
Definition streq (a b : string) : bool := String.eqb a b.

(** [strncmp (a, b, n) == 0] for a literal [b] of length [n]. *)
Definition has_prefix (b a : string) : bool := String.prefix b a.

(** The first [n] elements, counted in [Z] ([size_t] counts). *)
Fixpoint take {A} (l : list A) (n : Z) : list A :=
  match l with
  | [] => []
  | x :: t => if n <=? 0 then [] else x :: take t (n - 1)
  end.

Fixpoint drop {A} (l : list A) (n : Z) : list A :=
  match l with
  | [] => []
  | x :: t => if n <=? 0 then l else drop t (n - 1)
  end.

Definition size {A} (l : list A) : Z := Z.of_nat (List.length l).

End C.

(* ================================================================== *)
(** ** crc32.c *)

Module Crc32.

(** Modelled from the spec: the body of [crc32], which [main.c] only
    declares ([unsigned long crc32 (unsigned long crc, const unsigned
    char* buf, unsigned int len)], implemented in [crc32.c]). The spec has
    it as the standard reflected CRC-32 (polynomial 0xEDB88320), which
    starts from 0xFFFFFFFF internally when the caller passes 0 and whose
    returned running value is serialised as it is. *)
Definition poly : Z := 3988292384.

Fixpoint shift_bits (n : nat) (c : Z) : Z :=
  match n with
  | O => c
  | S n' =>
      shift_bits n'
        (if Z.testbit c 0 then Z.lxor (Z.shiftr c 1) poly else Z.shiftr c 1)
  end.

Definition update (c b : Z) : Z := shift_bits 8 (Z.lxor c (C.u8 b)).

Definition crc32 (crc : Z) (buf : list Z) : Z :=
  Z.lxor (fold_left update buf (Z.lxor crc 4294967295)) 4294967295.

End Crc32.

(* ================================================================== *)
(** ** The C library's strtoul *)

Module Libc.

Definition isspace (c : Z) : bool :=
  (c =? 32) || ((9 <=? c) && (c <=? 13)).

(** The value of a digit or letter; 36 for any other character. *)
Definition digit_value (c : Z) : Z :=
  if (48 <=? c) && (c <=? 57) then c - 48
  else if (97 <=? c) && (c <=? 122) then c - 87
  else if (65 <=? c) && (c <=? 90) then c - 55
  else 36.

Fixpoint skip_space (s : string) : string :=
  match s with
  | String c t => if isspace (C.code c) then skip_space t else s
  | EmptyString => s
  end.

(** The longest run of digits of [base]: its value (not yet clamped),
    its length and what follows it. *)
Fixpoint digits (base : Z) (s : string) (acc : Z) (n : nat)
  : Z * nat * string :=
  match s with
  | String c t =>
      let d := digit_value (C.code c) in
      if d <? base then digits base t (acc * base + d) (S n)
      else (acc, n, s)
  | EmptyString => (acc, n, s)
  end.

Record strtoul_t := mkStrtoul {
  value : Z;            (* the returned unsigned long *)
  endPtr : string;      (* the string [*endptr] points at *)
  moved : bool;         (* [*endptr != nptr] *)
  errno_after : Z
}.

(** The subject sequence of [strtoul (nptr, &endPtr, 0)]: white space,
    an optional sign, then a hexadecimal number after 0x or 0X, an octal
    one after 0, a decimal one otherwise; a lone 0x converts the 0. The
    result is the sign, the value of the digits, their count and what
    follows them. *)
Definition scan (nptr : string) : bool * Z * nat * string :=
  let s1 := skip_space nptr in
  let '(neg, s2) :=
    match s1 with
    | String "-" t => (true, t)
    | String "+" t => (false, t)
    | _ => (false, s1)
    end in
  let '(base, s3) :=
    match s2 with
    | String "0" (String x t) =>
        if ((C.code x =? 120) || (C.code x =? 88))
           && (digit_value (C.char_at t 0) <? 16)
        then (16, t) else (8, s2)
    | _ => (10, s2)
    end in
  let '(acc, n, rest) := digits base s3 0 0 in
  (neg, acc, n, rest).

(** [strtoul (nptr, &endPtr, 0)]. Without digits nothing is converted
    and [endPtr] is [nptr]. On overflow the result is [ULONG_MAX] and
    [errno] becomes [ERANGE]; [errno] is not touched otherwise. A minus
    sign negates in [unsigned long]. *)
Definition strtoul (nptr : string) (errno : Z) : strtoul_t :=
  let '(neg, acc, n, rest) := scan nptr in
  match n with
  | O => mkStrtoul 0 nptr false errno
  | S _ =>
      if C.ULONG_MAX <? acc then mkStrtoul C.ULONG_MAX rest true C.ERANGE
      else mkStrtoul (if neg then C.u64 (- acc) else acc) rest true errno
  end.

End Libc.

(* ================================================================== *)
(** ** The output stream *)

Module Stdio.

(** A [FILE*] opened for writing. [written] is the content of the file,
    [trace] the successful [fwrite] calls in order, [room] the number of
    bytes the device still takes before writes start to fail. *)
Record stream := mkStream {
  written : list Z;
  trace : list (list Z);
  room : Z
}.

Definition fresh (room : Z) : stream := mkStream [] [] room.

(** [fwrite (ptr, size, 1, stream)]: 1 when the whole object went out.
    A zero [size] writes nothing and returns 0; an object larger than
    the room left is cut short and the call returns 0. *)
Definition fwrite (bytes : list Z) (s : stream) : Z * stream :=
  if C.size bytes =? 0 then (0, s)
  else if C.size bytes <=? room s then
    (1, mkStream (written s ++ bytes) (trace s ++ [bytes])
          (room s - C.size bytes))
  else
    (0, mkStream (written s ++ C.take bytes (room s)) (trace s) 0).

End Stdio.

(* ================================================================== *)
(** ** Return codes and diagnostics *)

Inductive return_code_t :=
| RET_OK
| RET_INVALID_PARAMS
| RET_READ_ERROR
| RET_WRITE_ERROR.

Definition exit_status (r : return_code_t) : Z :=
  match r with
  | RET_OK => 0
  | RET_INVALID_PARAMS => -1
  | RET_READ_ERROR => -2
  | RET_WRITE_ERROR => -3
  end.

(** uPNG's error codes ([upng/upng.h]). *)
Inductive upng_error :=
| UPNG_EOK
| UPNG_ENOMEM
| UPNG_ENOTFOUND
| UPNG_ENOTPNG
| UPNG_EMALFORMED
| UPNG_EUNSUPPORTED
| UPNG_EUNINTERLACED
| UPNG_EUNFORMAT
| UPNG_EPARAM.

(** One constructor per message [main] and [decodePng] print on [stderr]
    before giving up. *)
Inductive diag :=
| UnknownOption              (* getopt_long's default case, no message *)
| MissingDescription         (* Missing firmware description *)
| MissingTile                (* Missing tile file *)
| CannotCreateFirmware       (* Could not create firmware file *)
| HeaderNotWritten           (* Could not write header *)
| DescriptionNotWritten      (* Could not write firmware description *)
| PngNotOpened               (* Unable to open tile file *)
| PngFailure (e : upng_error)(* the messages of handleUpngError *)
| PngWidth                   (* Tile width should be 86 *)
| PngHeight                  (* Tile height should be 48 *)
| PngBadFormat               (* Uknown or unsupport png format *)
| TileNotFound               (* Tile file not found *)
| TileTooSmall               (* Tile file is too small *)
| TileTooLarge               (* Tile file is too large *)
| TileNotWritten             (* Could not write tile *)
| TypeNotParsed              (* Could not parse partition type *)
| TypeTooLarge               (* Partition type is too large *)
| TypeReserved               (* Partition type is reserved *)
| MissingSubtype             (* Missing partition subtype *)
| InvalidOta                 (* Invalid OTA partition subtype *)
| SubtypeNotParsed           (* Could not parse partition subtype *)
| SubtypeTooLarge            (* Partition subtype is too large *)
| AppSubtypeInvalid          (* APP subtypes can only be ... *)
| DataSubtypeInvalid         (* DATA subtypes can only be ... *)
| MissingSize                (* Missing partition size *)
| SizeNotParsed              (* Could not parse partition size *)
| SizeTooLarge               (* Partition size is too large *)
| SizeNotAligned             (* Partition size is not aligned to 64K *)
| MissingLabel               (* Missing partition label *)
| MissingFileName            (* Missing partition file name *)
| PartitionFileNotFound      (* Partition file not found *)
| ActualLargerThanDeclared   (* Actual partition size is larger than ... *)
| EntryNotWritten            (* Could not write partition entry *)
| SizeNotWritten             (* Could not write partition size *)
| DataNotWritten             (* Could not write partition data *)
| ChecksumNotWritten.        (* Could not write checksum *)

Inductive outcome (A : Type) :=
| Ok (a : A)
| Abort (r : return_code_t) (d : diag).
Arguments Ok {A} a.
Arguments Abort {A} r d.

(* ================================================================== *)
(** ** The state of a run and its monad *)

(** [checksum] is the local of [main], [file] the firmware file, [errno]
    the C library's error number. *)
Record state := mkState {
  checksum : Z;
  file : Stdio.stream;
  errno : Z
}.

Definition M (A : Type) : Type := state -> outcome A * state.

Definition ret {A} (a : A) : M A := fun st => (Ok a, st).

Definition bind {A B} (m : M A) (k : A -> M B) : M B :=
  fun st =>
    match m st with
    | (Ok a, st') => k a st'
    | (Abort r d, st') => (Abort r d, st')
    end.

(** [RETURN (x)], after the message [d]. *)
Definition RETURN {A} (r : return_code_t) (d : diag) : M A :=
  fun st => (Abort r d, st).

Definition lift {A} (o : outcome A) : M A := fun st => (o, st).

Declare Scope mkfw_scope.
Delimit Scope mkfw_scope with mkfw.
Notation "x <- m ;; k" := (bind m (fun x => k))
  (at level 61, m at next level, right associativity) : mkfw_scope.
Notation "m ;; k" := (bind m (fun _ => k))
  (at level 61, right associativity) : mkfw_scope.
Local Open Scope mkfw_scope.

(** [if (c) RETURN (r)] with its message. *)
Definition failing_if (c : bool) (r : return_code_t) (d : diag) : M unit :=
  if c then RETURN r d else ret tt.

(** ** writeAndCrc *)

(** [static bool writeAndCrc (const void* ptr, size_t size, FILE* stream,
    uint32_t* crc)]: the checksum is updated first, over all of [ptr], then
    the bytes are written. *)
Definition writeAndCrc (bytes : list Z) (s : Stdio.stream) (crc : Z)
  : bool * Stdio.stream * Z :=
  let crc' := C.u32 (Crc32.crc32 crc bytes) in
  let '(n, s') := Stdio.fwrite bytes s in
  (n =? 1, s', crc').

(** [if (!writeAndCrc (ptr, size, file, &checksum)) RETURN (RET_WRITE_ERROR)] *)
Definition write_or_fail (bytes : list Z) (d : diag) : M unit :=
  fun st =>
    let '(ok, f, crc) := writeAndCrc bytes (file st) (checksum st) in
    let st' := mkState crc f (errno st) in
    if ok then (Ok tt, st') else (Abort RET_WRITE_ERROR d, st').

(** [strtoul (arg, &endPtr, 0)] with [errno] threaded through. *)
Definition strtoul (arg : string) : M Libc.strtoul_t :=
  fun st =>
    let r := Libc.strtoul arg (errno st) in
    (Ok r, mkState (checksum st) (file st) (Libc.errno_after r)).

Definition errno_is (e : Z) : M bool := fun st => (Ok (errno st =? e), st).

(* ================================================================== *)
(** ** Constants and the partition entry *)

Definition kHeaderSize : nat := 24.
Definition kFirmwareDescriptionSize : nat := 40.
Definition kTileWidth : Z := 86.
Definition kTileHeight : Z := 48.
Definition kTileByteSize : Z := kTileWidth * kTileHeight * 2.
Definition kBufferSize : Z := 10 * 1024 * 1024.

Definition kDefaultHeader : string := "ODROIDGO_FIRMWARE_V00_01".

Definition PARTITION_APP : Z := 0.
Definition PARTITION_DATA : Z := 1.
Definition APP_FACTORY : Z := 0.
Definition DATA_OTA : Z := 0.
Definition DATA_PHY : Z := 1.
Definition DATA_NVS : Z := 2.
Definition APP_OTA (x : Z) : Z := 16 + Z.land x 15.

(** [odroid_partition_t], 28 bytes. *)
Record odroid_partition_t := mkPart {
  type : Z;            (* uint8_t *)
  subtype : Z;         (* uint8_t *)
  _reserved0 : Z;
  _reserved1 : Z;
  label : list Z;      (* uint8_t [16] *)
  flags : Z;           (* uint32_t *)
  length : Z           (* uint32_t *)
}.

(** [memset (&part, 0, sizeof (odroid_partition_t))] *)
Definition part_zero : odroid_partition_t :=
  mkPart 0 0 0 0 (C.zeros 16) 0 0.

Definition set_type (p : odroid_partition_t) (v : Z) :=
  mkPart (C.u8 v) (subtype p) (_reserved0 p) (_reserved1 p) (label p)
    (flags p) (length p).
Definition set_subtype (p : odroid_partition_t) (v : Z) :=
  mkPart (type p) (C.u8 v) (_reserved0 p) (_reserved1 p) (label p)
    (flags p) (length p).
Definition set_label (p : odroid_partition_t) (l : list Z) :=
  mkPart (type p) (subtype p) (_reserved0 p) (_reserved1 p) l
    (flags p) (length p).
Definition set_length (p : odroid_partition_t) (v : Z) :=
  mkPart (type p) (subtype p) (_reserved0 p) (_reserved1 p) (label p)
    (flags p) (C.u32 v).

(** The 28 bytes of the entry once [length] went through [htole32]. *)
Definition part_bytes (p : odroid_partition_t) : list Z :=
  [type p; subtype p; _reserved0 p; _reserved1 p]
    ++ label p ++ C.le32 (flags p) ++ C.le32 (length p).

(* ================================================================== *)
(** ** Parsing one partition's arguments *)

(** block: parse partition type *)
Definition parse_type (arg : string) (part : odroid_partition_t)
  : M odroid_partition_t :=
  part <- (if C.streq arg "app" then ret (set_type part PARTITION_APP)
           else if C.streq arg "data" then ret (set_type part PARTITION_DATA)
           else
             r <- strtoul arg ;;
             let value := Libc.value r in
             (if value =? 0 then
                failing_if (negb (Libc.moved r)) RET_INVALID_PARAMS
                  TypeNotParsed
              else if value =? C.ULONG_MAX then
                e <- errno_is C.ERANGE ;;
                failing_if e RET_INVALID_PARAMS TypeTooLarge
              else ret tt) ;;
             let part := set_type part value in
             failing_if (negb (value =? type part)) RET_INVALID_PARAMS
               TypeTooLarge ;;
             ret part) ;;
  failing_if (negb (type part =? PARTITION_APP)
              && negb (type part =? PARTITION_DATA)
              && (type part <? 64))
    RET_INVALID_PARAMS TypeReserved ;;
  ret part.

(** The [ota_] branch: one digit, or the two digits 10 to 15. The flag is
    [invalidOta]. A [char] above 127 fails the digit tests whether [char]
    is signed or not. *)
Definition scan_ota (arg : string) (part : odroid_partition_t)
  : bool * odroid_partition_t :=
  let c4 := C.char_at arg 4 in
  if (c4 <? 48) || (57 <? c4) then (true, part)
  else
    let part := set_subtype part (c4 - 48) in
    let c5 := C.char_at arg 5 in
    if negb (c5 =? 0) then
      if negb (C.char_at arg 6 =? 0) || negb (subtype part =? 1)
         || (c5 <? 48) || (53 <? c5)
      then (true, part)
      else (false, set_subtype part (subtype part * 10 + c5 - 48))
    else (false, part).

(** The numeric branch of the subtype. *)
Definition numeric_subtype (arg : string) (part : odroid_partition_t)
  : M odroid_partition_t :=
  r <- strtoul arg ;;
  let value := Libc.value r in
  (if value =? 0 then
     failing_if (negb (Libc.moved r)) RET_INVALID_PARAMS SubtypeNotParsed
   else if value =? C.LONG_MAX then
     e <- errno_is C.ERANGE ;;
     failing_if e RET_INVALID_PARAMS SubtypeTooLarge
   else ret tt) ;;
  let part := set_subtype part value in
  failing_if (negb (C.char_at (Libc.endPtr r) 0 =? 0)) RET_INVALID_PARAMS
    SubtypeNotParsed ;;
  failing_if (negb (value =? subtype part)) RET_INVALID_PARAMS
    SubtypeTooLarge ;;
  (if type part =? PARTITION_APP then
     failing_if (negb (subtype part =? APP_FACTORY)
                 && ((subtype part <? 16) || (31 <? subtype part)))
       RET_INVALID_PARAMS AppSubtypeInvalid
   else if type part =? PARTITION_DATA then
     failing_if (2 <? subtype part) RET_INVALID_PARAMS DataSubtypeInvalid
   else ret tt) ;;
  ret part.

(** block: parse partion subtype *)
Definition parse_subtype (arg : string) (part : odroid_partition_t)
  : M odroid_partition_t :=
  if type part =? PARTITION_APP then
    if C.streq arg "factory" then ret (set_subtype part APP_FACTORY)
    else if C.has_prefix "ota_" arg then
      let '(invalidOta, part) := scan_ota arg part in
      failing_if invalidOta RET_INVALID_PARAMS InvalidOta ;;
      ret (set_subtype part (APP_OTA (subtype part)))
    else numeric_subtype arg part
  else if type part =? PARTITION_DATA then
    if C.streq arg "ota" then ret (set_subtype part DATA_OTA)
    else if C.streq arg "phy" then ret (set_subtype part DATA_PHY)
    else if C.streq arg "nvs" then ret (set_subtype part DATA_NVS)
    else numeric_subtype arg part
  else numeric_subtype arg part.

(** The [switch] on the character at [endPtr], the size suffix. It
    multiplies [part.length], which still holds the zero of the [memset]. *)
Definition size_suffix (c : Z) (part : odroid_partition_t)
  : M odroid_partition_t :=
  if (c =? 109) || (c =? 77) then           (* 'm', 'M' and fallthrough *)
    let part := set_length part (length part * 1024) in
    ret (set_length part (length part * 1024))
  else if (c =? 107) || (c =? 75) then      (* 'k', 'K' *)
    ret (set_length part (length part * 1024))
  else if c =? 0 then ret part
  else RETURN RET_INVALID_PARAMS SizeNotParsed.

(** block: parse partition size, for an argument other than [auto] *)
Definition parse_size (arg : string) (part : odroid_partition_t)
  : M odroid_partition_t :=
  r <- strtoul arg ;;
  let value := Libc.value r in
  (if value =? 0 then
     failing_if (negb (Libc.moved r)) RET_INVALID_PARAMS SizeNotParsed
   else if value =? C.LONG_MAX then
     e <- errno_is C.ERANGE ;;
     failing_if e RET_INVALID_PARAMS SizeTooLarge
   else ret tt) ;;
  part <- size_suffix (C.char_at (Libc.endPtr r) 0) part ;;
  let part := set_length part value in
  failing_if (negb (value =? length part)) RET_INVALID_PARAMS SizeTooLarge ;;
  (* the size should be 64K aligned *)
  failing_if (negb (Z.land value 65535 =? 0)) RET_INVALID_PARAMS
    SizeNotAligned ;;
  ret part.

(* ================================================================== *)
(** ** decodePng: the tile transcoder *)

Module Png.

(** uPNG's colour formats ([upng/upng.h]). *)
Inductive upng_format :=
| UPNG_BADFORMAT
| UPNG_RGB8
| UPNG_RGB16
| UPNG_RGBA8
| UPNG_RGBA16
| UPNG_LUMINANCE1
| UPNG_LUMINANCE2
| UPNG_LUMINANCE4
| UPNG_LUMINANCE8
| UPNG_LUMINANCE_ALPHA1
| UPNG_LUMINANCE_ALPHA2
| UPNG_LUMINANCE_ALPHA4
| UPNG_LUMINANCE_ALPHA8.

(** What the decoder reports for one file: the results of
    [upng_header] and [upng_decode], the dimensions, the format and the
    decoded pixel buffer. *)
Record upng_t := mkUpng {
  header_error : upng_error;
  upng_get_width : Z;
  upng_get_height : Z;
  decode_error : upng_error;
  upng_get_format : upng_format;
  upng_get_buffer : list Z
}.

(** [upng_get_bpp]: bits per pixel, as the case labels of [decodePng]
    have them (24-bit RGB, 32-bit RGBA, 48-bit RGB, 64-bit RGBA). *)
Definition upng_get_bpp (fmt : upng_format) : Z :=
  match fmt with
  | UPNG_BADFORMAT => 0
  | UPNG_RGB8 => 24
  | UPNG_RGB16 => 48
  | UPNG_RGBA8 => 32
  | UPNG_RGBA16 => 64
  | UPNG_LUMINANCE1 => 1
  | UPNG_LUMINANCE2 => 2
  | UPNG_LUMINANCE4 => 4
  | UPNG_LUMINANCE8 => 8
  | UPNG_LUMINANCE_ALPHA1 => 2
  | UPNG_LUMINANCE_ALPHA2 => 4
  | UPNG_LUMINANCE_ALPHA4 => 8
  | UPNG_LUMINANCE_ALPHA8 => 16
  end.

Definition handleUpngError (err : upng_error) : return_code_t :=
  match err with
  | UPNG_EOK => RET_OK
  | UPNG_ENOMEM => RET_INVALID_PARAMS
  | UPNG_ENOTFOUND => RET_READ_ERROR
  | UPNG_ENOTPNG => RET_INVALID_PARAMS
  | UPNG_EMALFORMED => RET_INVALID_PARAMS
  | UPNG_EUNSUPPORTED => RET_INVALID_PARAMS
  | UPNG_EUNINTERLACED => RET_INVALID_PARAMS
  | UPNG_EUNFORMAT => RET_INVALID_PARAMS
  | UPNG_EPARAM => RET_INVALID_PARAMS
  end.

(** [#define RGB565(r, g, b) (((r) << 11) | ((g) << 5) | (b))] *)
Definition RGB565 (r g b : Z) : Z :=
  Z.lor (Z.lor (Z.shiftl r 11) (Z.shiftl g 5)) b.

(** [pngData[k]], a [uint8_t]. *)
Definition at8 (pngData : list Z) (k : nat) : Z := C.u8 (nth k pngData 0).

(** [((uint16_t* ) pngData)[k]] on a little-endian host. *)
Definition at16 (pngData : list Z) (k : nat) : Z :=
  at8 pngData (2 * k) + 256 * at8 pngData (2 * k + 1).

(** [*rawData = htole16 (v); ++rawData;] for a [uint16_t] value. *)
Definition store (v : Z) : list Z := C.le16 (C.u16 v).

(** [for (rawData = sBuffer; rawData < rawDataEnd;) { body; pngData +=
    step; }]: [n] counts the rounds left, 4128 pixels divided by the
    pixels a round stores. *)
Fixpoint loop (n : nat) (step : nat) (body : list Z -> list Z)
  (pngData : list Z) : list Z :=
  match n with
  | O => []
  | S n' => body pngData ++ loop n' step body (skipn step pngData)
  end.

Definition pixels : nat := 4128.   (* kTileWidth * kTileHeight *)

(** case UPNG_RGB8, UPNG_RGBA8 *)
Definition rgb8_pixel (fmt : upng_format) (pngData : list Z) : Z :=
  let a := match fmt with UPNG_RGB8 => 255 | _ => at8 pngData 3 end in
  let r := C.u8 (Z.shiftr (at8 pngData 0 * a / 255) 3) in
  let g := C.u8 (Z.shiftl (Z.shiftr (at8 pngData 1 * a / 255) 3) 1) in
  let g := C.u8 (Z.lor g (Z.shiftr g 5)) in
  let b := C.u8 (Z.shiftr (at8 pngData 2 * a / 255) 3) in
  C.u16 (RGB565 r g b).

(** case UPNG_RGB16, UPNG_RGBA16. The products are [int]; the green
    channel reads [pngData[1]], a single byte. *)
Definition rgb16_pixel (fmt : upng_format) (pngData : list Z) : Z :=
  let a := match fmt with UPNG_RGB16 => 65535 | _ => at16 pngData 3 end in
  let r :=
    C.u8 (Z.shiftr (Z.quot (C.i32 (at16 pngData 0 * a)) 65535) 11) in
  let g :=
    C.u8 (Z.shiftl
            (Z.shiftr (Z.quot (C.i32 (at8 pngData 1 * a)) 65535) 11) 1) in
  let g := C.u8 (Z.lor g (Z.shiftr g 5)) in
  let b :=
    C.u8 (Z.shiftr (Z.quot (C.i32 (at16 pngData 2 * a)) 65535) 11) in
  C.u16 (RGB565 r g b).

(** case UPNG_LUMINANCE1 *)
Definition lum1_bit (byte : Z) (k : Z) : Z :=
  if Z.land (Z.shiftr byte k) 1 =? 0 then 0 else 65535.

Definition lum1_body (pngData : list Z) : list Z :=
  let p := at8 pngData 0 in
  store (lum1_bit p 7) ++ store (lum1_bit p 6) ++ store (lum1_bit p 5)
    ++ store (lum1_bit p 4) ++ store (lum1_bit p 3) ++ store (lum1_bit p 2)
    ++ store (lum1_bit p 1) ++ store (lum1_bit p 0).

(** case UPNG_LUMINANCE2; the fourth pixel shifts by 6 again. *)
Definition lum2_colors : list Z :=
  [0; RGB565 10 20 10; RGB565 21 43 21; 65535].

Definition lum2_pixel (byte : Z) (k : Z) : Z :=
  nth (Z.to_nat (Z.land (Z.shiftr byte k) 3)) lum2_colors 0.

Definition lum2_body (pngData : list Z) : list Z :=
  let p := at8 pngData 0 in
  store (lum2_pixel p 6) ++ store (lum2_pixel p 4)
    ++ store (lum2_pixel p 2) ++ store (lum2_pixel p 6).

(** case UPNG_LUMINANCE4: the expansion of one 4-bit sample. *)
Definition lum4_pixel (byte : Z) (k : Z) : Z :=
  let v := C.u8 (Z.land (Z.shiftr byte k) 15) in
  let r := C.u8 (Z.lor (Z.shiftl v 1) (Z.shiftr v 3)) in
  let g := C.u8 (Z.lor (Z.shiftl r 1) (Z.shiftr r 4)) in
  let b := r in
  C.u16 (RGB565 r g b).

Definition lum4_body (pngData : list Z) : list Z :=
  let p := at8 pngData 0 in
  store (lum4_pixel p 4) ++ store (lum4_pixel p 0).

(** case UPNG_LUMINANCE8 *)
Definition lum8_pixel (pngData : list Z) : Z :=
  let v := C.u8 (Z.land (Z.shiftr (at8 pngData 0) 4) 15) in
  let r := C.u8 (Z.lor (Z.shiftl v 1) (Z.shiftr v 3)) in
  let g := C.u8 (Z.lor (Z.shiftl r 1) (Z.shiftr r 4)) in
  let b := r in
  C.u16 (RGB565 r g b).

(** case UPNG_LUMINANCE_ALPHA1 *)
Definition la1_pixel (byte : Z) (k : Z) : Z :=
  if Z.land (Z.shiftr byte k) 3 =? 3 then 65535 else 0.

Definition la1_body (pngData : list Z) : list Z :=
  let p := at8 pngData 0 in
  store (la1_pixel p 6) ++ store (la1_pixel p 4)
    ++ store (la1_pixel p 2) ++ store (la1_pixel p 0).

(** case UPNG_LUMINANCE_ALPHA2 *)
Definition la2_colors : list Z :=
  [0; RGB565 3 7 3; RGB565 7 14 17; RGB565 10 21 10; RGB565 14 28 14;
   0; RGB565 21 43 21; 0; 0; 65535].

Definition la2_pixel (byte : Z) (kv ka : Z) : Z :=
  let v := C.u8 (Z.land (Z.shiftr byte kv) 3) in
  let a := C.u8 (Z.land (Z.shiftr byte ka) 3) in
  nth (Z.to_nat (v * a)) la2_colors 0.

Definition la2_body (pngData : list Z) : list Z :=
  let p := at8 pngData 0 in
  store (la2_pixel p 6 4) ++ store (la2_pixel p 2 0).

(** case UPNG_LUMINANCE_ALPHA4; both masks are 0x07. *)
Definition la4_pixel (pngData : list Z) : Z :=
  let p := at8 pngData 0 in
  let v := C.u8 (Z.land (Z.shiftr p 4) 7) in
  let a := C.u8 (Z.land (Z.shiftr p 0) 7) in
  let c := C.u8 (Z.shiftl (v * a) 1 / 7) in
  let r := C.u8 (Z.lor c (Z.shiftr c 4)) in
  let g := C.u8 (Z.lor (Z.shiftl r 1) (Z.shiftr r 4)) in
  let b := r in
  C.u16 (RGB565 r g b).

(** case UPNG_LUMINANCE_ALPHA8 *)
Definition la8_pixel (pngData : list Z) : Z :=
  let v := at8 pngData 0 in
  let a := at8 pngData 1 in
  let c := C.u8 (Z.shiftr (v * a / 255) 3) in
  let r := C.u8 (Z.lor c (Z.shiftr c 7)) in
  let g := C.u8 (Z.lor (Z.shiftl r 1) (Z.shiftr r 4)) in
  let b := r in
  C.u16 (RGB565 r g b).

(** The [switch (fmt)]: the first [kTileByteSize] bytes of [sBuffer]
    after the loop of the format, nothing for [UPNG_BADFORMAT]. *)
Definition transcode (fmt : upng_format) (pngData : list Z)
  : option (list Z) :=
  let one (f : list Z -> Z) := fun p => store (f p) in
  let bytes_per_pixel := Z.to_nat (upng_get_bpp fmt / 8) in
  match fmt with
  | UPNG_BADFORMAT => None
  | UPNG_RGB8 | UPNG_RGBA8 =>
      Some (loop pixels bytes_per_pixel (one (rgb8_pixel fmt)) pngData)
  | UPNG_RGB16 | UPNG_RGBA16 =>
      Some (loop pixels bytes_per_pixel (one (rgb16_pixel fmt)) pngData)
  | UPNG_LUMINANCE1 => Some (loop (pixels / 8) 1 lum1_body pngData)
  | UPNG_LUMINANCE2 => Some (loop (pixels / 4) 1 lum2_body pngData)
  | UPNG_LUMINANCE4 => Some (loop (pixels / 2) 1 lum4_body pngData)
  | UPNG_LUMINANCE8 => Some (loop pixels 1 (one lum8_pixel) pngData)
  | UPNG_LUMINANCE_ALPHA1 => Some (loop (pixels / 4) 1 la1_body pngData)
  | UPNG_LUMINANCE_ALPHA2 => Some (loop (pixels / 2) 1 la2_body pngData)
  | UPNG_LUMINANCE_ALPHA4 => Some (loop pixels 1 (one la4_pixel) pngData)
  | UPNG_LUMINANCE_ALPHA8 => Some (loop pixels 2 (one la8_pixel) pngData)
  end.

(** [static return_code_t decodePng (const char* tileFileName, const bool
    quiet)], given what [upng_new_from_file] returned: the result and
    the tile left in [sBuffer]. *)
Definition decodePng (upng : option upng_t) : outcome (list Z) :=
  match upng with
  | None => Abort RET_READ_ERROR PngNotOpened
  | Some u =>
      match handleUpngError (header_error u) with
      | RET_OK =>
          if negb (upng_get_width u =? kTileWidth) then
            Abort RET_INVALID_PARAMS PngWidth
          else if negb (upng_get_height u =? kTileHeight) then
            Abort RET_INVALID_PARAMS PngHeight
          else
            match handleUpngError (decode_error u) with
            | RET_OK =>
                match transcode (upng_get_format u) (upng_get_buffer u) with
                | None => Abort RET_INVALID_PARAMS PngBadFormat
                | Some tile => Ok tile
                end
            | r => Abort r (PngFailure (decode_error u))
            end
      | r => Abort r (PngFailure (header_error u))
      end
  end.

End Png.

(* ================================================================== *)
(** ** main *)

(** What a run finds around it: the files it can open for reading, what
    uPNG makes of a file, whether the firmware file can be created, how
    many bytes it takes, and the [errno] left by earlier library calls. *)
Record world := mkWorld {
  files : string -> option (list Z);
  pngs : string -> option Png.upng_t;
  can_create : bool;
  space : Z;
  errno0 : Z
}.

(** The successive results of [getopt_long]. *)
Inductive getopt_t :=
| opt_h
| opt_H (optarg : string)
| opt_o (optarg : string)
| opt_q
| opt_V
| opt_unknown.

Record settings := mkSettings {
  sHeader : list Z;          (* char [kHeaderSize + 1] *)
  firmwareName : string;
  quiet : bool
}.

(** [memset (sHeader, 0, sizeof (sHeader)); strncpy (sHeader, src,
    kHeaderSize);] *)
Definition header_of (src : string) : list Z :=
  C.strncpy (C.bytes_of_string src) kHeaderSize ++ [0].

Definition defaults : settings :=
  mkSettings (header_of kDefaultHeader) "firmware.fw" false.

(** The [while ((opt = getopt_long (...)) != -1)] loop: the settings, or
    the status [main] returns at once. *)
Fixpoint scan_options (opts : list getopt_t) (cfg : settings)
  : settings + return_code_t :=
  match opts with
  | [] => inl cfg
  | opt_h :: _ => inr RET_OK
  | opt_H optarg :: rest =>
      scan_options rest
        (mkSettings (header_of optarg) (firmwareName cfg) (quiet cfg))
  | opt_o optarg :: rest =>
      scan_options rest (mkSettings (sHeader cfg) optarg (quiet cfg))
  | opt_q :: rest =>
      scan_options rest (mkSettings (sHeader cfg) (firmwareName cfg) true)
  | opt_V :: _ => inr RET_OK
  | opt_unknown :: _ => inr RET_INVALID_PARAMS
  end.

(** [memset (sFirmwareDescription, 0, kFirmwareDescriptionSize); strncpy
    (sFirmwareDescription, argv[arg], kFirmwareDescriptionSize);] *)
Definition description_of (arg : string) : list Z :=
  C.strncpy (C.bytes_of_string arg) kFirmwareDescriptionSize.

Definition endsWith (str suffix : string) : bool :=
  let suffixLen := String.length suffix in
  let strLen := String.length str in
  (suffixLen <=? strLen)%nat
  && C.streq (substring (strLen - suffixLen) suffixLen str) suffix.

(** The raw tile: [sBuffer] after the [fread], when the file has exactly
    [kTileByteSize] bytes. *)
Definition read_raw_tile (w : world) (tileFileName : string)
  : outcome (list Z) :=
  match files w tileFileName with
  | None => Abort RET_READ_ERROR TileNotFound
  | Some tileFile =>
      let sBuffer := C.take tileFile kTileByteSize in
      if negb (C.size sBuffer =? kTileByteSize) then
        Abort RET_INVALID_PARAMS TileTooSmall
      else if negb (C.size (C.drop tileFile kTileByteSize) =? 0) then
        Abort RET_INVALID_PARAMS TileTooLarge
      else Ok sBuffer
  end.

(** decode and copy the tile *)
Definition read_tile (w : world) (tileFileName : string)
  : outcome (list Z) :=
  if endsWith tileFileName ".png" then Png.decodePng (pngs w tileFileName)
  else read_raw_tile w tileFileName.

(** [while (!feof (binary))]: one [fread] of up to [kBufferSize] bytes
    and one [writeAndCrc] per round; the end of the file is noticed by
    the [fread] that comes back short. [binary] is what is left to read,
    [fuel] bounds the rounds. *)
Fixpoint copy_loop (fuel : nat) (binary : list Z) : M unit :=
  match fuel with
  | O => ret tt
  | S fuel' =>
      write_or_fail (C.take binary kBufferSize) DataNotWritten ;;
      if C.size binary <? kBufferSize then ret tt
      else copy_loop fuel' (C.drop binary kBufferSize)
  end.

(** The sizing of the entry: [length] is the file size as a [uint32_t],
    [part.length] is derived from it under [auto]. *)
Definition auto_length (part : odroid_partition_t) (length32 : Z)
  : odroid_partition_t :=
  let part := set_length part length32 in
  if negb (Z.land (length part) 65535 =? 0) then
    set_length part (Z.lor (length part) 65535 + 1)
  else part.

(** block: copy the partition. [fseek], [ftell] and [fread] are taken to
    succeed on a file that could be opened; [fileSize] is a [long]. *)
Definition copy_partition (w : world) (autoPartitionSize : bool)
  (name : string) (part : odroid_partition_t) : M unit :=
  match files w name with
  | None => RETURN RET_READ_ERROR PartitionFileNotFound
  | Some binary =>
      let fileSize := C.size binary in
      let length32 := C.u32 fileSize in
      let part :=
        if autoPartitionSize then auto_length part length32 else part in
      failing_if (length part <? length32) RET_INVALID_PARAMS
        ActualLargerThanDeclared ;;
      write_or_fail (part_bytes part) EntryNotWritten ;;
      write_or_fail (C.le32 length32) SizeNotWritten ;;
      copy_loop (S (List.length binary)) binary
  end.

(** The [for (++arg; arg < argc; ++arg, ++partCount)] loop over the
    partition tuples; [args] is [argv] from [arg] on. *)
Fixpoint partitions (w : world) (args : list string) : M unit :=
  match args with
  | [] => ret tt
  | a_type :: args1 =>
      part <- parse_type a_type part_zero ;;
      match args1 with
      | [] => RETURN RET_INVALID_PARAMS MissingSubtype
      | a_subtype :: args2 =>
          part <- parse_subtype a_subtype part ;;
          match args2 with
          | [] => RETURN RET_INVALID_PARAMS MissingSize
          | a_size :: args3 =>
              let autoPartitionSize := C.streq a_size "auto" in
              part <- (if autoPartitionSize then ret part
                       else parse_size a_size part) ;;
              match args3 with
              | [] => RETURN RET_INVALID_PARAMS MissingLabel
              | a_label :: args4 =>
                  let part :=
                    set_label part
                      (C.strncpy (C.bytes_of_string a_label) 16) in
                  match args4 with
                  | [] => RETURN RET_INVALID_PARAMS MissingFileName
                  | a_binary :: args5 =>
                      copy_partition w autoPartitionSize a_binary part ;;
                      partitions w args5
                  end
              end
          end
      end
  end.

(** [checksum = htole32 (checksum); fwrite (&checksum, sizeof (checksum),
    1, file)] *)
Definition write_checksum : M unit :=
  fun st =>
    let '(n, f) := Stdio.fwrite (C.le32 (checksum st)) (file st) in
    let st' := mkState (checksum st) f (errno st) in
    if n =? 1 then (Ok tt, st')
    else (Abort RET_WRITE_ERROR ChecksumNotWritten, st').

(** From the first write to the last, on the firmware file just opened. *)
Definition assemble (w : world) (cfg : settings)
  (description tileFileName : string) (args : list string) : M unit :=
  write_or_fail (firstn kHeaderSize (sHeader cfg)) HeaderNotWritten ;;
  write_or_fail (description_of description) DescriptionNotWritten ;;
  sBuffer <- lift (read_tile w tileFileName) ;;
  write_or_fail (C.take sBuffer kTileByteSize) TileNotWritten ;;
  partitions w args ;;
  write_checksum.

(** What a run leaves behind: the exit status, the message if any, the
    firmware file if it was created, and the local [checksum]. *)
Record run := mkRun {
  status : return_code_t;
  message : option diag;
  firmware : option Stdio.stream;
  checksum_at_exit : Z
}.

(** [int main (int argc, char *argv[])]: [opts] are the options as
    [getopt_long] hands them out, [argv] the arguments from [optind]. *)
Definition main (w : world) (opts : list getopt_t) (argv : list string)
  : run :=
  match scan_options opts defaults with
  | inr r =>
      mkRun r (match r with RET_OK => None | _ => Some UnknownOption end)
        None 0
  | inl cfg =>
      match argv with
      | [] => mkRun RET_INVALID_PARAMS (Some MissingDescription) None 0
      | description :: argv1 =>
          match argv1 with
          | [] => mkRun RET_INVALID_PARAMS (Some MissingTile) None 0
          | tileFileName :: args =>
              if negb (can_create w) then
                mkRun RET_READ_ERROR (Some CannotCreateFirmware) None 0
              else
                let st0 := mkState 0 (Stdio.fresh (space w)) (errno0 w) in
                match assemble w cfg description tileFileName args st0 with
                | (Ok _, st) =>
                    mkRun RET_OK None (Some (file st)) (checksum st)
                | (Abort r d, st) =>
                    mkRun r (Some d) (Some (file st)) (checksum st)
                end
          end
      end
  end.

(* ================================================================== *)
(** * The vocabulary of the properties *)

(** An outcome that is not an abort with [RET_OK]. *)
Definition honest {A} (r : outcome A) : Prop :=
  match r with
  | Ok _ => True
  | Abort c _ => c <> RET_OK
  end.

(** An outcome that is not an abort on a failed write either. *)
Definition refusal {A} (r : outcome A) : Prop :=
  match r with
  | Ok _ => True
  | Abort c _ => c <> RET_OK /\ c <> RET_WRITE_ERROR
  end.

(** Computations that leave the firmware file and the checksum alone. *)
Definition silent {A} (m : M A) : Prop :=
  forall st r st', m st = (r, st') ->
    file st' = file st /\ checksum st' = checksum st /\ refusal r.

(** The running checksum is the CRC-32 of the file so far, reached one
    successful write after the other from zero. *)
Definition tracked (st : state) : Prop :=
  Stdio.written (file st) = List.concat (Stdio.trace (file st))
  /\ checksum st = Crc32.crc32 0 (Stdio.written (file st))
  /\ checksum st
     = fold_left (fun c chunk => C.u32 (Crc32.crc32 c chunk))
         (Stdio.trace (file st)) 0.

(** What every step of [main] does to the file: it only appends, it
    keeps the checksum in step as long as it succeeds, and it never aborts
    with [RET_OK]. *)
Definition sound {A} (m : M A) : Prop :=
  forall st r st', m st = (r, st') ->
    (exists extra,
        Stdio.written (file st') = Stdio.written (file st) ++ extra)
    /\ (forall a, r = Ok a -> tracked st -> tracked st')
    /\ honest r.

(** Everything before the checksum is written. *)
Definition body_of (w : world) (cfg : settings)
  (description tileFileName : string) (args : list string) : M unit :=
  write_or_fail (firstn kHeaderSize (sHeader cfg)) HeaderNotWritten ;;
  write_or_fail (description_of description) DescriptionNotWritten ;;
  sBuffer <- lift (read_tile w tileFileName) ;;
  write_or_fail (C.take sBuffer kTileByteSize) TileNotWritten ;;
  partitions w args.

(** The body of the partition loop when the five arguments are there. *)
Definition partition_tuple (w : world)
  (a_type a_subtype a_size a_label a_binary : string) : M unit :=
  part <- parse_type a_type part_zero ;;
  part <- parse_subtype a_subtype part ;;
  let autoPartitionSize := C.streq a_size "auto" in
  part <- (if autoPartitionSize then ret part else parse_size a_size part) ;;
  let part := set_label part (C.strncpy (C.bytes_of_string a_label) 16) in
  copy_partition w autoPartitionSize a_binary part.

(** A run of the partition loop, tuple by tuple: it ends with the
    arguments, or at the first tuple that aborts, or before a write on
    fewer than five arguments. *)
Inductive loop_run (w : world)
  : list string -> state -> outcome unit -> state -> Prop :=
| loop_done st : loop_run w [] st (Ok tt) st
| loop_next a_type a_subtype a_size a_label a_binary rest st st1 r st' :
    partition_tuple w a_type a_subtype a_size a_label a_binary st
    = (Ok tt, st1) ->
    loop_run w rest st1 r st' ->
    loop_run w (a_type :: a_subtype :: a_size :: a_label :: a_binary :: rest)
      st r st'
| loop_stop a_type a_subtype a_size a_label a_binary rest st c d st' :
    partition_tuple w a_type a_subtype a_size a_label a_binary st
    = (Abort c d, st') ->
    loop_run w (a_type :: a_subtype :: a_size :: a_label :: a_binary :: rest)
      st (Abort c d) st'
| loop_short args st c d st' :
    args <> [] -> (List.length args < 5)%nat ->
    c <> RET_WRITE_ERROR -> file st' = file st ->
    loop_run w args st (Abort c d) st'.

(** 64K alignment, as the spec words it. *)
Definition round_up_64k (n : Z) : Z := 65536 * ((n + 65535) / 65536).

(** [x] is the beginning of [y]. *)
Definition is_prefix {A} (x y : list A) : Prop := exists rest, y = x ++ rest.

(** The files of the scenario: a raw tile of 8256 zero bytes and a
    payload of one byte. *)
Definition demo_files (name : string) : option (list Z) :=
  if String.eqb name "tile.raw" then Some (C.zeros (Z.to_nat 8256))
  else if String.eqb name "app.bin" then Some [7]
  else None.

Definition demo_world : world :=
  mkWorld demo_files (fun _ => None) true 1000000 0.

Definition demo_state : state := mkState 0 (Stdio.fresh 1000000) 0.

(** The scenario of the spec: header MYFW, description test, the raw
    tile, one partition (app, factory, auto, label app, one byte). *)
Definition demo_run : run :=
  main demo_world [opt_H "MYFW"]
    ["test"; "tile.raw"; "app"; "factory"; "auto"; "app"; "app.bin"].

Definition demo_image : Stdio.stream :=
  match firmware demo_run with
  | Some f => f
  | None => Stdio.fresh 0
  end.

(** The bytes [s'] has beyond [s]. *)
Definition newly_written (s s' : Stdio.stream) (delta : list Z) : Prop :=
  Stdio.written s' = Stdio.written s ++ delta.

(** C7 as the spec words it: after a failed write the accumulator has
    taken in the bytes that reached the file and no others. *)
Definition crc_follows_written_bytes : Prop :=
  forall bytes s crc ok s' crc' delta,
    writeAndCrc bytes s crc = (ok, s', crc') ->
    fst (Stdio.fwrite bytes s) <> 1 ->
    newly_written s s' delta ->
    ok = false /\ crc' = C.u32 (Crc32.crc32 crc delta).

(** The green field of the RGB8 case: the five high bits of the channel,
    shifted left by one, with the highest of them repeated in bit 0. *)
Definition green_field (x : Z) : Z :=
  Z.lor (Z.shiftl (Z.shiftr x 3) 1) (Z.shiftr x 7).

(** C8 as the spec words it: green is the scaled channel shifted right by
    2, then [g |= g >> 5]. *)
Definition claimed_rgb8_pixel (fmt : Png.upng_format) (pngData : list Z)
  : Z :=
  let a := match fmt with Png.UPNG_RGB8 => 255 | _ => Png.at8 pngData 3 end in
  let r := Z.shiftr (Png.at8 pngData 0 * a / 255) 3 in
  let g := Z.shiftr (Png.at8 pngData 1 * a / 255) 2 in
  let g := Z.lor g (Z.shiftr g 5) in
  let b := Z.shiftr (Png.at8 pngData 2 * a / 255) 3 in
  Png.RGB565 r g b.

Definition rgb8_as_claimed : Prop :=
  forall fmt pngData,
    fmt = Png.UPNG_RGB8 \/ fmt = Png.UPNG_RGBA8 ->
    Png.rgb8_pixel fmt pngData = claimed_rgb8_pixel fmt pngData.

(** The expansion of a nibble, as the 4-bit and the 8-bit case spell it:
    [r = (v << 1) | (v >> 3); g = (r << 1) | (r >> 4); b = r]. *)
Definition expand_nibble (v : Z) : Z :=
  let r := Z.lor (Z.shiftl v 1) (Z.shiftr v 3) in
  let g := Z.lor (Z.shiftl r 1) (Z.shiftr r 4) in
  let b := r in
  Png.RGB565 r g b.

(** A text field as the spec words it: the input cut to [n] bytes, with
    zero bytes after it when it is shorter. *)
Definition text_field (n : nat) (s : string) : list Z :=
  firstn n (C.bytes_of_string s)
    ++ C.zeros (n - List.length (C.bytes_of_string s)).

(** The header in force after the options: the argument of the last
    [-H], the default without one. *)
Fixpoint chosen_header (opts : list getopt_t) (current : string) : string :=
  match opts with
  | [] => current
  | opt_H optarg :: rest => chosen_header rest optarg
  | _ :: rest => chosen_header rest current
  end.

(** The numerals of a value: decimal, and hexadecimal after 0x or 0X. *)
Definition decimal (v : Z) : string :=
  DecimalString.NilZero.string_of_uint (N.to_uint (Z.to_N v)).

Definition hexadecimal (v : Z) : string :=
  HexadecimalString.NilZero.string_of_uint (N.to_hex_uint (Z.to_N v)).

Definition numerals (v : Z) : list string :=
  [decimal v; String.append "0x" (hexadecimal v);
   String.append "0X" (hexadecimal v)].

(** [strtoul] converts [s] as a whole, without sign, to [v]. *)
Definition scans_to (s : string) (v : Z) : bool :=
  let '(neg, acc, n, rest) := Libc.scan s in
  negb neg && (acc =? v) && negb (Nat.eqb n 0) && String.eqb rest EmptyString.

(** An argument without a NUL character inside, as every C string is. *)
Definition c_string (s : string) : Prop :=
  Forall (fun c => C.code c <> 0) (list_ascii_of_string s).

(** [strtoul] converts the whole argument, to [v]. *)
Definition wholly_numeric (arg : string) (v : Z) : Prop :=
  let r := Libc.strtoul arg 0 in
  Libc.moved r = true /\ Libc.endPtr r = EmptyString /\ Libc.value r = v.

(** The same as the code tests it: [*endPtr] is the terminator. *)
Definition stops_at_terminator (arg : string) (v : Z) : Prop :=
  let r := Libc.strtoul arg 0 in
  Libc.moved r = true /\ C.char_at (Libc.endPtr r) 0 = 0 /\ Libc.value r = v.

(** The literal subtypes of an app partition after [factory], and those
    of a data partition. *)
Definition ota_names : list (string * Z) :=
  [("ota_0", 16); ("ota_1", 17); ("ota_2", 18); ("ota_3", 19);
   ("ota_4", 20); ("ota_5", 21); ("ota_6", 22); ("ota_7", 23);
   ("ota_8", 24); ("ota_9", 25); ("ota_10", 26); ("ota_11", 27);
   ("ota_12", 28); ("ota_13", 29); ("ota_14", 30); ("ota_15", 31)].

Definition data_names : list (string * Z) :=
  [("ota", 0); ("phy", 1); ("nvs", 2)].

(* ================================================================== *)
(** * Properties *)

(** ** Bits, bytes and wrap-around *)

Lemma lxor_below (n a b : Z) :
  0 <= n -> 0 <= a < 2 ^ n -> 0 <= b < 2 ^ n -> 0 <= Z.lxor a b < 2 ^ n.
Proof.
  intros Hn Ha Hb. split.
  - apply Z.lxor_nonneg. lia.
  - destruct (Z.eq_dec (Z.lxor a b) 0) as [E | E]; [rewrite E; lia |].
    assert (0 < Z.lxor a b) by (pose proof (proj2 (Z.lxor_nonneg a b)); lia).
    assert (0 < n).
    { destruct (Z.eq_dec n 0) as [-> | ]; [| lia].
      assert (a = 0) by (simpl in *; lia). assert (b = 0) by (simpl in *; lia).
      subst. simpl in E. congruence. }
    apply Z.log2_lt_pow2; [assumption |].
    pose proof (Z.log2_lxor a b ltac:(lia) ltac:(lia)) as L.
    assert (Z.log2 a < n).
    { destruct (Z.eq_dec a 0) as [-> | ]; [simpl; lia |].
      apply Z.log2_lt_pow2; lia. }
    assert (Z.log2 b < n).
    { destruct (Z.eq_dec b 0) as [-> | ]; [simpl; lia |].
      apply Z.log2_lt_pow2; lia. }
    lia.
Qed.

Lemma u8_range x : 0 <= C.u8 x < 256.
Proof. unfold C.u8. apply Z.mod_pos_bound. lia. Qed.

Lemma u32_range x : 0 <= C.u32 x < 4294967296.
Proof. unfold C.u32. apply Z.mod_pos_bound. lia. Qed.

Lemma u32_small x : 0 <= x < 4294967296 -> C.u32 x = x.
Proof. intros. unfold C.u32. apply Z.mod_small. assumption. Qed.

Lemma land_65535 x : Z.land x 65535 = x mod 65536.
Proof.
  change 65535 with (Z.ones 16). rewrite Z.land_ones by lia. reflexivity.
Qed.

Lemma land_255 x : Z.land x 255 = x mod 256.
Proof. change 255 with (Z.ones 8). rewrite Z.land_ones by lia. reflexivity. Qed.

Lemma lor_65535 x : 0 <= x -> Z.lor x 65535 = 65536 * (x / 65536) + 65535.
Proof.
  intros Hx.
  pose proof (Z.add_lor_land x 65535) as H.
  rewrite land_65535 in H.
  pose proof (Z.div_mod x 65536 ltac:(lia)). lia.
Qed.

(** A 32-bit field read back from its four little-endian bytes. *)
Lemma le_value_le32 x : 0 <= x < 4294967296 -> C.le_value (C.le32 x) = x.
Proof.
  intros Hx. unfold C.le32, C.le_value.
  rewrite !land_255, !Z.shiftr_div_pow2 by lia.
  change (2 ^ 8) with 256. change (2 ^ 16) with 65536.
  change (2 ^ 24) with 16777216.
  Z.div_mod_to_equations. lia.
Qed.

Lemma le32_length x : List.length (C.le32 x) = 4%nat.
Proof. reflexivity. Qed.

(** ** crc32 *)

Lemma shift_bits_range n c :
  0 <= c < 4294967296 -> 0 <= Crc32.shift_bits n c < 4294967296.
Proof.
  revert c. induction n as [| n IH]; intros c Hc;
    cbn [Crc32.shift_bits]; [assumption |].
  apply IH.
  assert (0 <= Z.shiftr c 1 < 2147483648).
  { rewrite Z.shiftr_div_pow2 by lia. change (2 ^ 1) with 2.
    split; [apply Z.div_pos; lia | apply Z.div_lt_upper_bound; lia]. }
  destruct (Z.testbit c 0); [| lia].
  apply (lxor_below 32); unfold Crc32.poly; lia.
Qed.

Lemma update_range c b :
  0 <= c < 4294967296 -> 0 <= Crc32.update c b < 4294967296.
Proof.
  intros Hc. unfold Crc32.update. apply shift_bits_range.
  pose proof (u8_range b).
  apply (lxor_below 32); lia.
Qed.

Lemma fold_update_range buf c :
  0 <= c < 4294967296 -> 0 <= fold_left Crc32.update buf c < 4294967296.
Proof.
  revert c. induction buf as [| b buf IH]; intros c Hc; simpl; [assumption |].
  apply IH, update_range, Hc.
Qed.

Lemma crc32_range crc buf :
  0 <= crc < 4294967296 -> 0 <= Crc32.crc32 crc buf < 4294967296.
Proof.
  intros Hc. unfold Crc32.crc32.
  apply (lxor_below 32); try lia.
  apply fold_update_range. apply (lxor_below 32); lia.
Qed.

Lemma lxor_twice x m : Z.lxor (Z.lxor x m) m = x.
Proof. rewrite Z.lxor_assoc, Z.lxor_nilpotent, Z.lxor_0_r. reflexivity. Qed.

(** Feeding the bytes in two calls or in one gives the same value. *)
Lemma crc32_app crc a b :
  Crc32.crc32 (Crc32.crc32 crc a) b = Crc32.crc32 crc (a ++ b).
Proof.
  unfold Crc32.crc32. rewrite lxor_twice, fold_left_app. reflexivity.
Qed.

Lemma crc32_nil crc : Crc32.crc32 crc [] = crc.
Proof. unfold Crc32.crc32. simpl. apply lxor_twice. Qed.

(** ** Reasoning in the monad *)

Lemma bind_inv {A B} (m : M A) (k : A -> M B) st r st' :
  bind m k st = (r, st') ->
  (exists a st1, m st = (Ok a, st1) /\ k a st1 = (r, st'))
  \/ (exists c d, m st = (Abort c d, st') /\ r = Abort c d).
Proof.
  unfold bind. destruct (m st) as [[a | c d] st1]; intros H.
  - left. eauto.
  - right. inversion H; subst. eauto.
Qed.

Lemma failing_if_inv c r d st o st' :
  failing_if c r d st = (o, st') ->
  st' = st /\ ((c = false /\ o = Ok tt) \/ (c = true /\ o = Abort r d)).
Proof.
  unfold failing_if, RETURN, ret. destruct c; intros H; inversion H; auto.
Qed.

Lemma refusal_honest {A} (r : outcome A) : refusal r -> honest r.
Proof. destruct r; simpl; tauto. Qed.

Lemma silent_ret {A} (a : A) : silent (ret a).
Proof. intros st r st' H. inversion H; simpl; auto. Qed.

Lemma silent_RETURN {A} c d :
  c <> RET_OK /\ c <> RET_WRITE_ERROR -> silent (@RETURN A c d).
Proof. intros N st r st' H. inversion H; simpl; auto. Qed.

Lemma silent_lift {A} (o : outcome A) : refusal o -> silent (lift o).
Proof. intros N st r st' H. inversion H; subst; auto. Qed.

Lemma silent_failing_if c r d :
  r <> RET_OK /\ r <> RET_WRITE_ERROR -> silent (failing_if c r d).
Proof.
  intros N st o st' H.
  apply failing_if_inv in H as [-> [[_ ->] | [_ ->]]]; simpl; auto.
Qed.

Lemma silent_strtoul arg : silent (strtoul arg).
Proof. intros st r st' H. inversion H; simpl; auto. Qed.

Lemma silent_errno_is e : silent (errno_is e).
Proof. intros st r st' H. inversion H; simpl; auto. Qed.

Lemma silent_bind {A B} (m : M A) (k : A -> M B) :
  silent m -> (forall a, silent (k a)) -> silent (bind m k).
Proof.
  intros Hm Hk st r st' H.
  apply bind_inv in H as [(a & st1 & H1 & H2) | (c & d & H1 & ->)].
  - apply Hm in H1 as (F1 & C1 & _). apply Hk in H2 as (F2 & C2 & N).
    rewrite F2, C2. auto.
  - apply Hm in H1. assumption.
Qed.

Lemma silent_if {A} (c : bool) (m1 m2 : M A) :
  silent m1 -> silent m2 -> silent (if c then m1 else m2).
Proof. destruct c; auto. Qed.

Ltac silence := repeat (intros; first
  [ apply silent_bind | apply silent_if | apply silent_ret
  | apply silent_RETURN; split; discriminate
  | apply silent_failing_if; split; discriminate | apply silent_strtoul
  | apply silent_errno_is ]).

Lemma silent_parse_type arg part : silent (parse_type arg part).
Proof. unfold parse_type. silence. Qed.

Lemma silent_numeric_subtype arg part : silent (numeric_subtype arg part).
Proof. unfold numeric_subtype. silence. Qed.

Lemma silent_parse_subtype arg part : silent (parse_subtype arg part).
Proof.
  unfold parse_subtype.
  destruct (scan_ota arg part) as [invalidOta part'].
  silence; try apply silent_numeric_subtype.
Qed.

Lemma silent_size_suffix c part : silent (size_suffix c part).
Proof. unfold size_suffix. silence. Qed.

Lemma silent_parse_size arg part : silent (parse_size arg part).
Proof. unfold parse_size. silence. Qed.

(** ** Counted prefixes *)

Lemma take_all {A} (l : list A) n : C.size l <= n -> C.take l n = l.
Proof.
  unfold C.size. revert n. induction l as [| x l IH]; intros n Hn;
    [reflexivity |].
  cbn [C.take]. cbn [List.length] in Hn.
  destruct (Z.leb_spec n 0); [lia |].
  f_equal. apply IH. lia.
Qed.

Lemma take_drop {A} (l : list A) n : C.take l n ++ C.drop l n = l.
Proof.
  revert n. induction l as [| x l IH]; intros n; [reflexivity |].
  cbn [C.take C.drop]. destruct (n <=? 0); [reflexivity |].
  simpl. f_equal. apply IH.
Qed.

Lemma size_app {A} (a b : list A) : C.size (a ++ b) = C.size a + C.size b.
Proof. unfold C.size. rewrite length_app. lia. Qed.

Lemma size_nonneg {A} (l : list A) : 0 <= C.size l.
Proof. unfold C.size. lia. Qed.

Lemma size_take {A} (l : list A) n :
  C.size l >= n -> 0 <= n -> C.size (C.take l n) = n.
Proof.
  unfold C.size. revert n. induction l as [| x l IH]; intros n H1 H2.
  - simpl in *. lia.
  - cbn [C.take]. destruct (Z.leb_spec n 0).
    + simpl. lia.
    + cbn [List.length] in *. rewrite Nat2Z.inj_succ, IH; lia.
Qed.

Lemma size_drop {A} (l : list A) n :
  C.size l >= n -> 0 <= n -> C.size (C.drop l n) = C.size l - n.
Proof.
  intros H1 H2. pose proof (take_drop l n) as E.
  apply (f_equal C.size) in E. rewrite size_app, size_take in E; lia.
Qed.

(** ** The tracked write *)

Lemma fwrite_cases bytes s :
  (Stdio.fwrite bytes s
   = (1, Stdio.mkStream (Stdio.written s ++ bytes) (Stdio.trace s ++ [bytes])
           (Stdio.room s - C.size bytes))
   /\ bytes <> [] /\ C.size bytes <= Stdio.room s)
  \/ (Stdio.fwrite bytes s = (0, s) /\ bytes = [])
  \/ (Stdio.fwrite bytes s
      = (0, Stdio.mkStream (Stdio.written s ++ C.take bytes (Stdio.room s))
              (Stdio.trace s) 0)
      /\ bytes <> [] /\ Stdio.room s < C.size bytes).
Proof.
  unfold Stdio.fwrite.
  destruct (C.size bytes =? 0) eqn:E0.
  - right; left. split; [reflexivity |].
    apply Z.eqb_eq in E0. unfold C.size in E0.
    destruct bytes; [reflexivity | simpl in E0; lia].
  - assert (bytes <> []) by (intros ->; discriminate).
    destruct (C.size bytes <=? Stdio.room s) eqn:E1.
    + left. repeat split; [assumption |]. apply Z.leb_le. assumption.
    + right; right. repeat split; [assumption |]. apply Z.leb_gt. assumption.
Qed.

Lemma write_or_fail_ok bytes d st u st' :
  write_or_fail bytes d st = (Ok u, st') ->
  bytes <> []
  /\ Stdio.written (file st') = Stdio.written (file st) ++ bytes
  /\ Stdio.trace (file st') = Stdio.trace (file st) ++ [bytes]
  /\ checksum st' = C.u32 (Crc32.crc32 (checksum st) bytes).
Proof.
  unfold write_or_fail, writeAndCrc.
  destruct (fwrite_cases bytes (file st))
    as [(E & N & _) | [(E & _) | (E & _)]];
    rewrite E; simpl; intros H; inversion H; subst; simpl; auto.
Qed.

Lemma write_or_fail_any bytes d st r st' :
  write_or_fail bytes d st = (r, st') ->
  (r = Ok tt \/ r = Abort RET_WRITE_ERROR d)
  /\ exists k, Stdio.written (file st')
               = Stdio.written (file st) ++ C.take bytes k.
Proof.
  unfold write_or_fail, writeAndCrc.
  destruct (fwrite_cases bytes (file st))
    as [(E & N & _) | [(E & ->) | (E & _)]];
    rewrite E; simpl; intros H; inversion H; subst; simpl; split; auto.
  - exists (C.size bytes). rewrite take_all by lia. reflexivity.
  - exists 0. rewrite app_nil_r. reflexivity.
  - eauto.
Qed.

Lemma sound_silent {A} (m : M A) : silent m -> sound m.
Proof.
  intros Hs st r st' H. apply Hs in H as (F & C & N). split; [| split].
  - exists []. rewrite F, app_nil_r. reflexivity.
  - intros x _ T. unfold tracked in *. rewrite F, C. assumption.
  - apply refusal_honest, N.
Qed.

Lemma sound_bind {A B} (m : M A) (k : A -> M B) :
  sound m -> (forall a, sound (k a)) -> sound (bind m k).
Proof.
  intros Hm Hk st r st' H.
  apply bind_inv in H as [(a & st1 & H1 & H2) | (c & d & H1 & ->)].
  - apply Hm in H1 as ((e1 & E1) & K1 & _).
    apply Hk in H2 as ((e2 & E2) & K2 & N). split; [| split].
    + exists (e1 ++ e2). rewrite E2, E1, app_assoc. reflexivity.
    + intros b Hb T. eapply K2; [eassumption |]. eapply K1; eauto.
    + assumption.
  - apply Hm in H1 as (E1 & _ & N).
    split; [| split]; [assumption | | assumption].
    intros x Hx. discriminate.
Qed.

Lemma sound_write_or_fail bytes d : sound (write_or_fail bytes d).
Proof.
  intros st r st' H. split; [| split].
  - apply write_or_fail_any in H as (_ & k & E). eauto.
  - intros u -> (Tw & Tc & Tf).
    apply write_or_fail_ok in H as (_ & W & T & K).
    assert (R : C.u32 (Crc32.crc32 (checksum st) bytes)
                = Crc32.crc32 0 (Stdio.written (file st) ++ bytes)).
    { rewrite Tc at 1. rewrite crc32_app. apply u32_small, crc32_range. lia. }
    unfold tracked. rewrite W, T, K. repeat split.
    + rewrite concat_app, <- Tw. simpl. rewrite app_nil_r. reflexivity.
    + exact R.
    + rewrite fold_left_app. simpl. rewrite <- Tf. reflexivity.
  - apply write_or_fail_any in H as ([-> | ->] & _); simpl;
      [auto | discriminate].
Qed.

Lemma sound_copy_loop fuel binary : sound (copy_loop fuel binary).
Proof.
  revert binary. induction fuel as [| fuel IH]; intros binary; simpl.
  - apply sound_silent, silent_ret.
  - apply sound_bind; [apply sound_write_or_fail |].
    intros _. destruct (C.size binary <? kBufferSize);
      [apply sound_silent, silent_ret | apply IH].
Qed.

Ltac hush := solve [silence
  | apply silent_parse_type | apply silent_parse_subtype
  | apply silent_parse_size
  | apply silent_if; [apply silent_ret | apply silent_parse_size] ].

Ltac soundness := repeat first
  [ apply sound_write_or_fail | apply sound_copy_loop
  | apply sound_silent; hush
  | apply sound_bind; [| intros ?] ].

Lemma sound_copy_partition w a name part :
  sound (copy_partition w a name part).
Proof.
  unfold copy_partition. destruct (files w name) as [binary |]; soundness.
Qed.

Lemma sound_partitions w args : sound (partitions w args).
Proof.
  remember (List.length args) as n eqn:En.
  revert args En. induction n as [n IH] using lt_wf_ind. intros args En.
  destruct args
    as [| a_type [| a_subtype [| a_size [| a_label [| a_binary rest]]]]];
    cbn [partitions]; soundness.
  - apply sound_copy_partition.
  - eapply IH; [| reflexivity]. subst n. simpl. lia.
Qed.

Lemma handleUpngError_codes e :
  Png.handleUpngError e <> RET_WRITE_ERROR.
Proof. destruct e; discriminate. Qed.

Lemma refusal_decodePng upng : refusal (Png.decodePng upng).
Proof.
  unfold Png.decodePng. destruct upng as [u |]; simpl;
    [| split; discriminate].
  pose proof (handleUpngError_codes (Png.header_error u)).
  pose proof (handleUpngError_codes (Png.decode_error u)).
  destruct (Png.handleUpngError (Png.header_error u)) eqn:E1;
    simpl; try (split; [discriminate | congruence]).
  destruct (negb (Png.upng_get_width u =? kTileWidth)); simpl;
    [split; discriminate |].
  destruct (negb (Png.upng_get_height u =? kTileHeight)); simpl;
    [split; discriminate |].
  destruct (Png.handleUpngError (Png.decode_error u)) eqn:E2;
    simpl; try (split; [discriminate | congruence]).
  destruct (Png.transcode _ _); simpl; [trivial | split; discriminate].
Qed.

Lemma refusal_read_tile w name : refusal (read_tile w name).
Proof.
  unfold read_tile. destruct (endsWith name ".png");
    [apply refusal_decodePng |].
  unfold read_raw_tile. destruct (files w name) as [tileFile |]; simpl;
    [| split; discriminate].
  destruct (negb _); simpl; [split; discriminate |].
  destruct (negb _); simpl; [split; discriminate | trivial].
Qed.

Lemma bind_assoc {A B D} (m : M A) (k : A -> M B) (h : B -> M D) st :
  bind (bind m k) h st = bind m (fun a => bind (k a) h) st.
Proof.
  unfold bind. destruct (m st) as [[a | c d] st1]; reflexivity.
Qed.

Lemma bind_ext {A B} (m : M A) (k1 k2 : A -> M B) st :
  (forall a st1, k1 a st1 = k2 a st1) -> bind m k1 st = bind m k2 st.
Proof.
  intros E. unfold bind. destruct (m st) as [[a | c d] st1]; auto.
Qed.

Lemma assemble_split w cfg description tileFileName args st :
  assemble w cfg description tileFileName args st
  = bind (body_of w cfg description tileFileName args)
      (fun _ => write_checksum) st.
Proof.
  unfold assemble, body_of.
  rewrite bind_assoc. apply bind_ext. intros _ st1.
  rewrite bind_assoc. apply bind_ext. intros _ st2.
  rewrite bind_assoc. apply bind_ext. intros sBuffer st3.
  rewrite bind_assoc. reflexivity.
Qed.

Lemma sound_body_of w cfg description tileFileName args :
  sound (body_of w cfg description tileFileName args).
Proof.
  unfold body_of. soundness.
  - apply sound_silent, silent_lift, refusal_read_tile.
  - apply sound_partitions.
Qed.

Lemma write_checksum_inv st r st' :
  write_checksum st = (r, st') ->
  (r = Ok tt
   /\ Stdio.written (file st')
      = Stdio.written (file st) ++ C.le32 (checksum st)
   /\ Stdio.trace (file st')
      = Stdio.trace (file st) ++ [C.le32 (checksum st)])
  \/ r = Abort RET_WRITE_ERROR ChecksumNotWritten.
Proof.
  unfold write_checksum.
  generalize (C.le32 (checksum st)). intros bytes.
  destruct (fwrite_cases bytes (file st))
    as [(E & _) | [(E & _) | (E & _)]];
    rewrite E; simpl; intros H; inversion H; subst; simpl; auto.
Qed.

Lemma tracked_start room e : tracked (mkState 0 (Stdio.fresh room) e).
Proof. unfold tracked. simpl. rewrite crc32_nil. auto. Qed.

(** What [main] returns once the firmware file is open. *)
Lemma main_assembles w opts argv f :
  firmware (main w opts argv) = Some f ->
  exists cfg description tileFileName args st r,
    scan_options opts defaults = inl cfg
    /\ argv = description :: tileFileName :: args
    /\ assemble w cfg description tileFileName args
         (mkState 0 (Stdio.fresh (space w)) (errno0 w)) = (r, st)
    /\ f = file st
    /\ status (main w opts argv)
       = match r with Ok _ => RET_OK | Abort c _ => c end.
Proof.
  unfold main.
  destruct (scan_options opts defaults) as [cfg | c]; [| discriminate].
  destruct argv as [| description [| tileFileName args]]; try discriminate.
  destruct (negb (can_create w)); [discriminate |].
  destruct (assemble _ _ _ _ _ _) as [[u | c d] st] eqn:E; simpl;
    intros H; inversion H; subst;
    exists cfg, description, tileFileName, args, st;
    eexists; repeat split; try eassumption; reflexivity.
Qed.

(** C1. For every successfully assembled image, the file ends with the
    four little-endian bytes of the CRC-32 of everything before them; that
    value is the one accumulated write after write, in write order, from
    zero, and the checksum field is not part of it. [chunks] are the
    writes that went through [writeAndCrc]. *)
Theorem checksum_covers_image w opts argv f :
  status (main w opts argv) = RET_OK ->
  firmware (main w opts argv) = Some f ->
  exists chunks,
    let body := List.concat chunks in
    let crc := Crc32.crc32 0 body in
    Stdio.trace f = chunks ++ [C.le32 crc]
    /\ Stdio.written f = body ++ C.le32 crc
    /\ C.le_value (C.le32 crc) = crc
    /\ crc = fold_left (fun c chunk => C.u32 (Crc32.crc32 c chunk)) chunks 0.
Proof.
  intros Hs Hf.
  destruct (main_assembles _ _ _ _ Hf)
    as (cfg & description & tileFileName & args & st & r & Ho & -> & E & ->
        & S).
  rewrite S in Hs. rewrite assemble_split in E.
  apply bind_inv in E as [(u & st1 & E1 & E2) | (c & d & E1 & ->)].
  - apply sound_body_of in E1 as (_ & K & _).
    specialize (K u eq_refl (tracked_start _ _)) as (Tw & Tc & Tf).
    apply write_checksum_inv in E2 as [(-> & W & T) | ->];
      [| discriminate].
    exists (Stdio.trace (file st1)). cbv zeta.
    rewrite <- Tw, <- Tc. repeat split; try assumption.
    apply le_value_le32. rewrite Tc. apply crc32_range. lia.
  - apply sound_body_of in E1 as (_ & _ & N). simpl in N. congruence.
Qed.

(** ** The fields the parsers touch *)

Ltac run_in H :=
  cbv [bind ret RETURN failing_if strtoul errno_is lift] in H.

Ltac branches H :=
  repeat match type of H with
  | context [if ?c then _ else _] => destruct c eqn:?
  | context [match ?x with (_, _) => _ end] => destruct x eqn:?
  end; cbn beta iota in H.

Ltac done_by_inversion H :=
  try discriminate H; inversion H; subst; clear H.

Lemma set_subtype_twice p a b :
  set_subtype (set_subtype p a) b = set_subtype p b.
Proof. reflexivity. Qed.

Lemma set_length_twice p a b :
  set_length (set_length p a) b = set_length p b.
Proof. reflexivity. Qed.

Lemma parse_type_frame arg part st p st' :
  parse_type arg part st = (Ok p, st') -> exists v, p = set_type part v.
Proof.
  unfold parse_type. intros H. run_in H. branches H;
    done_by_inversion H; eauto.
Qed.

Lemma numeric_subtype_frame arg part st p st' :
  numeric_subtype arg part st = (Ok p, st') ->
  exists v, p = set_subtype part v.
Proof.
  unfold numeric_subtype. intros H. run_in H. branches H;
    done_by_inversion H; eauto.
Qed.

Lemma scan_ota_frame arg part :
  exists v, snd (scan_ota arg part) = part
            \/ snd (scan_ota arg part) = set_subtype part v.
Proof.
  unfold scan_ota.
  repeat match goal with
  | |- context [if ?c then _ else _] => destruct c
  end; cbn [snd];
    first [ exists 0; left; reflexivity | eexists; right; reflexivity ].
Qed.

Lemma parse_subtype_frame arg part st p st' :
  parse_subtype arg part st = (Ok p, st') ->
  exists v, p = set_subtype part v.
Proof.
  unfold parse_subtype. intros H.
  destruct (type part =? PARTITION_APP).
  - destruct (C.streq arg "factory"); [inversion H; eauto |].
    destruct (C.has_prefix "ota_" arg);
      [| eapply numeric_subtype_frame; eassumption].
    destruct (scan_ota_frame arg part) as [v Hv].
    destruct (scan_ota arg part) as [invalidOta part']. simpl in Hv.
    run_in H. destruct invalidOta; done_by_inversion H.
    destruct Hv as [-> | ->]; eexists; [reflexivity | apply set_subtype_twice].
  - destruct (type part =? PARTITION_DATA);
      [| eapply numeric_subtype_frame; eassumption].
    destruct (C.streq arg "ota"); [inversion H; eauto |].
    destruct (C.streq arg "phy"); [inversion H; eauto |].
    destruct (C.streq arg "nvs"); [inversion H; eauto |].
    eapply numeric_subtype_frame; eassumption.
Qed.

(** An accepted size is the number [strtoul] returned, whatever follows
    it, and that number is a multiple of 64K below 2^32. *)
Lemma parse_size_ok arg part st p st' :
  parse_size arg part st = (Ok p, st') ->
  p = set_length part (Libc.value (Libc.strtoul arg (errno st)))
  /\ length p = Libc.value (Libc.strtoul arg (errno st))
  /\ length p mod 65536 = 0.
Proof.
  unfold parse_size, size_suffix. intros H. run_in H. branches H;
    done_by_inversion H;
    repeat match goal with
    | E : negb _ = false |- _ => apply negb_false_iff in E
    | E : (_ =? _) = true |- _ => apply Z.eqb_eq in E
    end;
    rewrite ?set_length_twice;
    match goal with
    | E1 : ?v = length _, E2 : Z.land ?v 65535 = 0 |- _ =>
        change (v = C.u32 v) in E1; rewrite land_65535 in E2;
        cbn [length set_length]; rewrite <- E1; auto
    end.
Qed.

(** ** One partition tuple *)

Lemma partitions_tuple w a_type a_subtype a_size a_label a_binary rest st :
  partitions w (a_type :: a_subtype :: a_size :: a_label :: a_binary :: rest)
    st
  = bind (partition_tuple w a_type a_subtype a_size a_label a_binary)
      (fun _ => partitions w rest) st.
Proof.
  unfold partition_tuple. cbn [partitions].
  rewrite bind_assoc. apply bind_ext. intros p1 st1.
  rewrite bind_assoc. apply bind_ext. intros p2 st2.
  rewrite bind_assoc. reflexivity.
Qed.

Ltac quiet_steps := repeat (intros; first
  [ apply silent_parse_type | apply silent_parse_subtype
  | apply silent_parse_size | apply silent_bind | apply silent_if
  | apply silent_ret | apply silent_RETURN; split; discriminate ]).

Lemma short_tuple_silent w args :
  (List.length args < 5)%nat -> silent (partitions w args).
Proof.
  intros H.
  destruct args
    as [| a_type [| a_subtype [| a_size [| a_label [| a_binary rest]]]]];
    cbn [partitions]; [quiet_steps .. |].
  simpl in H. lia.
Qed.

Lemma short_tuple_aborts w args st u st' :
  args <> [] -> (List.length args < 5)%nat ->
  partitions w args st <> (Ok u, st').
Proof.
  intros Hn Hl H.
  destruct args
    as [| a_type [| a_subtype [| a_size [| a_label [| a_binary rest]]]]];
    [congruence | | | | | simpl in Hl; lia]; cbn [partitions] in H;
    repeat (apply bind_inv in H as [(? & ? & _ & H) | (? & ? & _ & H)];
            [| discriminate H]);
    discriminate H.
Qed.

(** The partition loop is a run of partition tuples. *)
Lemma partitions_by_tuples w args st r st' :
  partitions w args st = (r, st') -> loop_run w args st r st'.
Proof.
  remember (List.length args) as n eqn:En.
  revert args En st. induction n as [n IH] using lt_wf_ind.
  intros args En st H.
  destruct (Nat.lt_ge_cases (List.length args) 5) as [Hs | Hl].
  - destruct args as [| a args]; [inversion H; subst; constructor |].
    destruct r as [u | c d].
    + exfalso. revert H. apply short_tuple_aborts; [discriminate | exact Hs].
    + pose proof (short_tuple_silent w _ Hs _ _ _ H) as (F & _ & N1 & N2).
      apply loop_short; auto. discriminate.
  - destruct args
      as [| a_type [| a_subtype [| a_size [| a_label [| a_binary rest]]]]];
      try (simpl in Hl; lia).
    rewrite partitions_tuple in H.
    apply bind_inv in H as [([] & st1 & H1 & H2) | (c & d & H1 & ->)].
    + eapply loop_next; [exact H1 |].
      eapply IH; [| reflexivity | exact H2]. subst n. simpl. lia.
    + apply loop_stop. exact H1.
Qed.

Lemma u32_u32 x : C.u32 (C.u32 x) = C.u32 x.
Proof. unfold C.u32. apply Z.mod_mod. lia. Qed.

Lemma round_up_aligned n : n mod 65536 = 0 -> round_up_64k n = n.
Proof. unfold round_up_64k. intros H. Z.div_mod_to_equations; lia. Qed.

Lemma round_up_unaligned n :
  n mod 65536 <> 0 -> round_up_64k n = 65536 * (n / 65536) + 65536.
Proof. unfold round_up_64k. intros H. Z.div_mod_to_equations; lia. Qed.

Lemma auto_length_spec part length32 :
  0 <= length32 < 4294967296 ->
  let p := auto_length part length32 in
  p = set_length part (length p)
  /\ 0 <= length p < 4294967296
  /\ length p mod 65536 = 0
  /\ (length32 mod 65536 = 0 -> length p = length32)
  /\ (length32 <= 4294901760 -> length p = round_up_64k length32)
  /\ (length32 <= length p -> length p = round_up_64k length32).
Proof.
  intros Hl. unfold auto_length.
  cbn [length set_length]. rewrite (u32_small length32) by assumption.
  rewrite land_65535.
  destruct (Z.eqb_spec (length32 mod 65536) 0) as [E | E]; cbn [negb].
  - cbn [length set_length]. rewrite (u32_small length32) by assumption.
    rewrite (round_up_aligned _ E).
    repeat split; try lia; try assumption;
      try (unfold set_length; cbn; rewrite u32_u32; reflexivity).
  - cbn [length set_length]. rewrite lor_65535 by lia.
    rewrite (round_up_unaligned _ E).
    split; [unfold set_length; cbn; rewrite u32_u32; reflexivity |].
    split; [apply u32_range |].
    assert (Hq : 0 <= length32 / 65536 < 65536).
    { split; [apply Z.div_pos; lia | apply Z.div_lt_upper_bound; lia]. }
    assert (Hr := Z.mod_pos_bound length32 65536 ltac:(lia)).
    assert (Hd := Z.div_mod length32 65536 ltac:(lia)).
    set (q := length32 / 65536) in *. set (r := length32 mod 65536) in *.
    replace (65536 * q + 65535 + 1) with (65536 * (q + 1)) by lia.
    destruct (Z.eq_dec q 65535) as [Eq | Eq].
    + rewrite Eq. change (C.u32 (65536 * (65535 + 1))) with 0.
      repeat split; try reflexivity; intros; lia.
    + rewrite u32_small by lia.
      split; [rewrite Z.mul_comm; apply Z.mod_mul; lia |].
      repeat split; intros; lia.
Qed.

Lemma is_prefix_refl {A} (l : list A) : is_prefix l l.
Proof. exists []. rewrite app_nil_r. reflexivity. Qed.

Lemma is_prefix_take {A} (l : list A) k : is_prefix (C.take l k) l.
Proof. exists (C.drop l k). symmetry. apply take_drop. Qed.

Lemma is_prefix_app_r {A} (x a b : list A) :
  is_prefix x a -> is_prefix x (a ++ b).
Proof. intros [r ->]. exists (r ++ b). rewrite app_assoc. reflexivity. Qed.

Lemma is_prefix_app {A} (a y b : list A) :
  is_prefix y b -> is_prefix (a ++ y) (a ++ b).
Proof. intros [r ->]. exists r. rewrite app_assoc. reflexivity. Qed.

Lemma drop_length {A} (l : list A) n :
  0 < n -> l <> [] -> (List.length (C.drop l n) < List.length l)%nat.
Proof.
  intros Hn Hl. destruct l as [| x l]; [congruence |].
  cbn [C.drop]. destruct (Z.leb_spec n 0); [lia |].
  pose proof (take_drop l (n - 1)) as E.
  apply (f_equal (@List.length A)) in E. rewrite length_app in E.
  simpl. lia.
Qed.

(** The copy loop writes the payload from its start, all of it when it
    succeeds. *)
Lemma copy_loop_out fuel binary st r st' :
  copy_loop fuel binary st = (r, st') ->
  exists out,
    Stdio.written (file st') = Stdio.written (file st) ++ out
    /\ is_prefix out binary
    /\ ((r = Ok tt /\ ((List.length binary < fuel)%nat -> out = binary))
        \/ r = Abort RET_WRITE_ERROR DataNotWritten).
Proof.
  revert binary st. induction fuel as [| fuel IH]; intros binary st H.
  - inversion H; subst. exists []. rewrite app_nil_r.
    repeat split; [exists binary; reflexivity |].
    left. split; [reflexivity | lia].
  - cbn [copy_loop] in H.
    apply bind_inv in H as [(u & st1 & H1 & H2) | (c & d & H1 & ->)].
    + pose proof H1 as H1'. apply write_or_fail_ok in H1' as (N & W & _).
      destruct (Z.ltb_spec (C.size binary) kBufferSize) as [L | L].
      * inversion H2; subst. rewrite take_all in W by lia.
        exists binary. repeat split; [assumption | apply is_prefix_refl |].
        left. auto.
      * apply IH in H2 as (out & W2 & P & R).
        exists (C.take binary kBufferSize ++ out).
        split; [rewrite W2, W, app_assoc; reflexivity |].
        split.
        { rewrite <- (take_drop binary kBufferSize) at 2.
          apply is_prefix_app, P. }
        destruct R as [(-> & F) | ->]; [left | right; reflexivity].
        split; [reflexivity |]. intros Hf.
        rewrite F; [apply take_drop |].
        assert (binary <> []).
        { intros ->. unfold C.size, kBufferSize in L. simpl in L. lia. }
        pose proof (drop_length binary kBufferSize ltac:(reflexivity) H).
        lia.
    + apply write_or_fail_any in H1 as ([E | E] & k & W);
        [discriminate |].
      inversion E; subst.
      exists (C.take (C.take binary kBufferSize) k).
      split; [assumption |]. split; [| right; reflexivity].
      destruct (is_prefix_take (C.take binary kBufferSize) k) as [r1 E1].
      destruct (is_prefix_take binary kBufferSize) as [r2 E2].
      exists (r1 ++ r2). rewrite app_assoc, <- E1. exact E2.
Qed.

Lemma part_bytes_length part :
  List.length (label part) = 16%nat ->
  List.length (part_bytes part) = 28%nat.
Proof.
  intros H. unfold part_bytes. rewrite !length_app, H. reflexivity.
Qed.

Lemma strncpy_length src n : List.length (C.strncpy src n) = n.
Proof.
  revert src. induction n as [| n IH]; intros src; [reflexivity |].
  destruct src as [| c t]; cbn [C.strncpy].
  - unfold C.zeros. apply repeat_length.
  - simpl. rewrite IH. reflexivity.
Qed.

Lemma skipn_exact {A} (a b : list A) n :
  List.length a = n -> skipn n (a ++ b) = b.
Proof.
  intros <-. rewrite skipn_app, skipn_all, Nat.sub_diag. reflexivity.
Qed.

Lemma firstn_exact {A} (a b : list A) n :
  List.length a = n -> firstn n (a ++ b) = a.
Proof.
  intros <-. rewrite firstn_app, firstn_all, Nat.sub_diag.
  simpl. apply app_nil_r.
Qed.

(** The declared length read back from bytes 24 to 27 of the entry. *)
Lemma declared_length_field part :
  List.length (label part) = 16%nat ->
  0 <= length part < 4294967296 ->
  C.le_value (skipn 24 (part_bytes part)) = length part.
Proof.
  intros Hl Hr. unfold part_bytes.
  rewrite !app_assoc. rewrite skipn_exact; [apply le_value_le32, Hr |].
  rewrite !length_app, Hl. reflexivity.
Qed.

Lemma silent_abort {A} (m : M A) st c d st' :
  silent m -> m st = (Abort c d, st') ->
  file st' = file st /\ c <> RET_WRITE_ERROR /\ c <> RET_OK.
Proof.
  intros Hs H. apply Hs in H as (F & _ & N1 & N2). auto.
Qed.

(** A partition tuple either stops before its first write, with a
    parameter or read error, or gets to write an entry that passed the
    checks. *)
Lemma partition_tuple_cases w a_type a_subtype a_size a_label a_binary
  st r st' :
  partition_tuple w a_type a_subtype a_size a_label a_binary st = (r, st') ->
  (file st' = file st
   /\ exists c d, r = Abort c d /\ c <> RET_WRITE_ERROR /\ c <> RET_OK)
  \/ exists part binary out,
       files w a_binary = Some binary
       /\ label part = C.strncpy (C.bytes_of_string a_label) 16
       /\ flags part = 0
       /\ 0 <= length part < 4294967296
       /\ length part mod 65536 = 0
       /\ C.u32 (C.size binary) <= length part
       /\ (C.streq a_size "auto" = true ->
           length part = round_up_64k (C.u32 (C.size binary)))
       /\ Stdio.written (file st') = Stdio.written (file st) ++ out
       /\ is_prefix out
            (part_bytes part ++ C.le32 (C.u32 (C.size binary)) ++ binary)
       /\ ((r = Ok tt
            /\ out = part_bytes part ++ C.le32 (C.u32 (C.size binary))
                       ++ binary)
           \/ exists d, r = Abort RET_WRITE_ERROR d).
Proof.
  unfold partition_tuple. intros H.
  (* the parsers write nothing *)
  apply bind_inv in H as [(p1 & st1 & H1 & H) | (c & d & H1 & ->)].
  2:{ left. apply (silent_abort _ _ _ _ _ (silent_parse_type _ _)) in H1
        as (F & N). eauto. }
  pose proof (silent_parse_type _ _ _ _ _ H1) as (F1 & _).
  apply parse_type_frame in H1 as [v1 ->].
  apply bind_inv in H as [(p2 & st2 & H2 & H) | (c & d & H2 & ->)].
  2:{ left. apply (silent_abort _ _ _ _ _ (silent_parse_subtype _ _)) in H2
        as (F & N). rewrite F, F1. eauto. }
  pose proof (silent_parse_subtype _ _ _ _ _ H2) as (F2 & _).
  apply parse_subtype_frame in H2 as [v2 ->].
  apply bind_inv in H as [(p3 & st3 & H3 & H) | (c & d & H3 & ->)].
  2:{ left. destruct (C.streq a_size "auto"); [discriminate |].
      apply (silent_abort _ _ _ _ _ (silent_parse_size _ _)) in H3
        as (F & N). rewrite F, F2, F1. eauto. }
  assert (F3 : file st3 = file st).
  { destruct (C.streq a_size "auto").
    - inversion H3; subst. congruence.
    - apply silent_parse_size in H3 as (F & _). congruence. }
  assert (P3 : C.streq a_size "auto" = true
               \/ (C.streq a_size "auto" = false
                   /\ 0 <= length p3 < 4294967296
                   /\ length p3 mod 65536 = 0)).
  { destruct (C.streq a_size "auto"); [left; reflexivity | right].
    apply parse_size_ok in H3 as (E & _ & Hm).
    split; [reflexivity |]. split; [| exact Hm].
    rewrite E. apply u32_range. }
  assert (L3 : label p3 = C.zeros 16 /\ flags p3 = 0).
  { destruct (C.streq a_size "auto").
    - inversion H3; subst. split; reflexivity.
    - apply parse_size_ok in H3 as (-> & _). split; reflexivity. }
  clear H3.
  (* the copy *)
  unfold copy_partition in H.
  destruct (files w a_binary) as [binary |] eqn:Ef.
  2:{ left. inversion H; subst. split; [exact F3 |].
      eexists _, _. repeat split; discriminate. }
  set (len := C.u32 (C.size binary)) in *.
  set (labelled := set_label p3 _) in *.
  set (part := if C.streq a_size "auto" then auto_length labelled len
               else labelled) in *.
  assert (Hlen : 0 <= len < 4294967296) by apply u32_range.
  assert (Hp : label part = C.strncpy (C.bytes_of_string a_label) 16
               /\ flags part = 0
               /\ 0 <= length part < 4294967296
               /\ length part mod 65536 = 0
               /\ (C.streq a_size "auto" = true -> len <= length part ->
                   length part = round_up_64k len)).
  { subst part. destruct P3 as [E | (E & R & Md)]; rewrite E.
    - destruct (auto_length_spec labelled len Hlen)
        as (Ep & R & Md & _ & _ & Hr).
      rewrite Ep. cbn [label flags set_length]. subst labelled.
      cbn [label flags set_label]. destruct L3 as [_ ->].
      repeat split; try (rewrite <- Ep; tauto).
    - subst labelled. cbn [label flags length set_label].
      destruct L3 as [_ ->]. repeat split; try tauto. discriminate. }
  destruct Hp as (Hl & Hfl & Hr & Hm & Hauto).
  apply bind_inv in H as [(u & st4 & H4 & H) | (c & d & H4 & ->)].
  2:{ left. apply failing_if_inv in H4 as [-> [[_ E] | [_ E]]];
        inversion E; subst. split; [exact F3 |].
      eexists _, _. repeat split; discriminate. }
  apply failing_if_inv in H4 as [-> [[Hle _] | [_ Hbad]]];
    [| discriminate].
  apply Z.ltb_ge in Hle.
  right. exists part, binary.
  assert (Hauto' : C.streq a_size "auto" = true ->
                   length part = round_up_64k len) by auto.
  apply bind_inv in H as [(u1 & st5 & H5 & H) | (c & d & H5 & ->)].
  2:{ apply write_or_fail_any in H5 as ([E | E] & k & W); [discriminate |].
      exists (C.take (part_bytes part) k). rewrite <- F3.
      repeat apply conj; auto; try lia.
      - apply is_prefix_app_r, is_prefix_take.
      - right. eauto. }
  apply write_or_fail_ok in H5 as (_ & W5 & _).
  apply bind_inv in H as [(u2 & st6 & H6 & H) | (c & d & H6 & ->)].
  2:{ apply write_or_fail_any in H6 as ([E | E] & k & W); [discriminate |].
      exists (part_bytes part ++ C.take (C.le32 len) k).
      rewrite W, W5, <- F3, <- app_assoc.
      repeat apply conj; auto; try lia.
      - apply is_prefix_app, is_prefix_app_r, is_prefix_take.
      - right. eauto. }
  apply write_or_fail_ok in H6 as (_ & W6 & _).
  apply copy_loop_out in H as (out & W & P & R).
  exists (part_bytes part ++ C.le32 len ++ out).
  rewrite W, W6, W5, <- F3, <- !app_assoc.
  repeat apply conj; auto; try lia.
  - apply is_prefix_app, is_prefix_app, P.
  - destruct R as [(-> & Hall) | ->]; [left | right; eauto].
    split; [reflexivity |]. rewrite Hall; [reflexivity | lia].
Qed.

(** ** The entry that gets written *)





(** An exactly 65,536-byte payload keeps 65,536. *)
Example auto_length_64k part : length (auto_length part 65536) = 65536.
Proof. reflexivity. Qed.

Example auto_length_64k_plus_1 part :
  length (auto_length part 65537) = 131072.
Proof. reflexivity. Qed.

(** ** writeAndCrc and a failing write *)

(** C7, where it fails. A stream without room takes none of the one byte
    97, the call reports failure, and the accumulator has moved from 0 to
    the CRC-32 of that byte all the same. *)
Lemma writeAndCrc_counts_unwritten_bytes :
  writeAndCrc [97] (Stdio.fresh 0) 0 = (false, Stdio.fresh 0, 3904355907)
  /\ ~ crc_follows_written_bytes.
Proof.
  split; [vm_compute; reflexivity |].
  intros claim.
  destruct (claim [97] (Stdio.fresh 0) 0 false (Stdio.fresh 0) 3904355907 [])
    as [_ E].
  - vm_compute. reflexivity.
  - vm_compute. discriminate.
  - reflexivity.
  - vm_compute in E. discriminate.
Qed.

(** C7, amended. The call fails exactly when [fwrite] does not return 1;
    the accumulator is advanced over all the bytes handed in, before the
    write and whatever becomes of it; a successful write appends all the
    bytes, a failed one some beginning of them. A write of no bytes fails
    and leaves accumulator and file as they were. *)
Theorem writeAndCrc_spec bytes s crc :
  let '(ok, s', crc') := writeAndCrc bytes s crc in
  ok = (fst (Stdio.fwrite bytes s) =? 1)
  /\ crc' = C.u32 (Crc32.crc32 crc bytes)
  /\ (if ok then newly_written s s' bytes /\ bytes <> []
      else exists k, newly_written s s' (C.take bytes k)
                     /\ (bytes = [] \/ Stdio.room s < C.size bytes))
  /\ writeAndCrc [] s crc = (false, s, C.u32 crc).
Proof.
  unfold writeAndCrc, newly_written.
  rewrite crc32_nil. change (Stdio.fwrite [] s) with (0, s).
  destruct (fwrite_cases bytes s) as [(E & N & _) | [(E & ->) | (E & N & L)]];
    rewrite E; cbn [fst]; simpl Z.eqb; cbn [Stdio.written];
    repeat apply conj; auto.
  - exists 0. rewrite app_nil_r. auto.
  - eauto.
Qed.

(** ** The transcoder, pixel by pixel *)

Lemma byte_cases (P : Z -> bool) :
  forallb P (map Z.of_nat (seq 0 256)) = true ->
  forall x, 0 <= x < 256 -> P x = true.
Proof.
  intros H x Hx. rewrite forallb_forall in H. apply H.
  apply in_map_iff. exists (Z.to_nat x).
  split; [lia | apply in_seq; lia].
Qed.

Lemma at8_range p k : 0 <= Png.at8 p k < 256.
Proof. apply u8_range. Qed.

Lemma scaled_range x a :
  0 <= x < 256 -> 0 <= a < 256 -> 0 <= x * a / 255 < 256.
Proof.
  intros Hx Ha. split.
  - apply Z.div_pos; nia.
  - apply Z.div_lt_upper_bound; nia.
Qed.

Lemma lor_below (n a b : Z) :
  0 <= n -> 0 <= a < 2 ^ n -> 0 <= b < 2 ^ n -> 0 <= Z.lor a b < 2 ^ n.
Proof.
  intros Hn Ha Hb. split; [apply Z.lor_nonneg; lia |].
  destruct (Z.eq_dec a 0) as [-> | Na]; [rewrite Z.lor_0_l; lia |].
  destruct (Z.eq_dec b 0) as [-> | Nb]; [rewrite Z.lor_0_r; lia |].
  assert (0 < Z.lor a b).
  { pose proof (proj2 (Z.lor_nonneg a b) ltac:(lia)).
    assert (Z.lor a b <> 0) by (rewrite Z.lor_eq_0_iff; tauto). lia. }
  apply Z.log2_lt_pow2; [assumption |].
  rewrite Z.log2_lor by lia.
  assert (Z.log2 a < n) by (apply Z.log2_lt_pow2; lia).
  assert (Z.log2 b < n) by (apply Z.log2_lt_pow2; lia).
  lia.
Qed.

(** A 5-6-5 value built from fields of 5, 6 and 5 bits fits 16 bits. *)
Lemma RGB565_fits r g b :
  0 <= r < 32 -> 0 <= g < 64 -> 0 <= b < 32 ->
  C.u16 (Png.RGB565 r g b) = Png.RGB565 r g b.
Proof.
  intros Hr Hg Hb. unfold C.u16, Png.RGB565. apply Z.mod_small.
  change 65536 with (2 ^ 16).
  apply lor_below; [lia | | lia].
  apply lor_below; [lia | |]; rewrite Z.shiftl_mul_pow2 by lia.
  - change (2 ^ 11) with 2048. change (2 ^ 16) with 65536. lia.
  - change (2 ^ 5) with 32. change (2 ^ 16) with 65536. lia.
Qed.

(** The bytes of a stored pixel: low byte first. *)
Lemma store_bytes v :
  0 <= v < 65536 -> Png.store v = [v mod 256; v / 256].
Proof.
  intros Hv. unfold Png.store, C.le16, C.u16.
  rewrite (Z.mod_small v 65536) by assumption.
  rewrite !land_255, Z.shiftr_div_pow2 by lia. change (2 ^ 8) with 256.
  rewrite (Z.mod_small (v / 256)); [reflexivity |].
  split; [apply Z.div_pos; lia | apply Z.div_lt_upper_bound; lia].
Qed.

Lemma red_blue_field x :
  0 <= x < 256 ->
  C.u8 (Z.shiftr x 3) = Z.shiftr x 3 /\ 0 <= Z.shiftr x 3 < 32.
Proof.
  intros Hx.
  pose proof (byte_cases
    (fun x => (C.u8 (Z.shiftr x 3) =? Z.shiftr x 3)
              && (0 <=? Z.shiftr x 3) && (Z.shiftr x 3 <? 32))
    ltac:(vm_compute; reflexivity) x Hx) as H.
  cbv beta in H. rewrite !andb_true_iff in H. lia.
Qed.

Lemma green_field_code x :
  0 <= x < 256 ->
  let g := C.u8 (Z.shiftl (Z.shiftr x 3) 1) in
  C.u8 (Z.lor g (Z.shiftr g 5)) = green_field x
  /\ 0 <= green_field x < 64.
Proof.
  intros Hx.
  pose proof (byte_cases
    (fun x =>
       let g := C.u8 (Z.shiftl (Z.shiftr x 3) 1) in
       (C.u8 (Z.lor g (Z.shiftr g 5)) =? green_field x)
       && (0 <=? green_field x) && (green_field x <? 64))
    ltac:(vm_compute; reflexivity) x Hx) as H.
  cbv beta zeta in H. rewrite !andb_true_iff in H. cbv zeta. lia.
Qed.

(** A loop that stores one pixel per round: where pixel [i] comes from
    and where it goes. *)
Lemma loop_one_pixel f step n pngData i :
  (i < n)%nat ->
  firstn 2 (skipn (2 * i) (Png.loop n step (fun p => Png.store (f p)) pngData))
  = Png.store (f (skipn (i * step) pngData)).
Proof.
  revert pngData i. induction n as [| n IH]; intros pngData i Hi; [lia |].
  cbn [Png.loop]. destruct i as [| i].
  - reflexivity.
  - replace (2 * S i)%nat with (2 + 2 * i)%nat by lia.
    rewrite skipn_app. cbn [Png.store C.le16 List.length].
    replace (2 + 2 * i - 2)%nat with (2 * i)%nat by lia.
    rewrite skipn_all2 by (simpl; lia). cbn [app].
    rewrite IH by lia. rewrite skipn_skipn.
    replace (S i * step)%nat with (i * step + step)%nat by lia.
    reflexivity.
Qed.

Lemma loop_one_length f step n pngData :
  List.length (Png.loop n step (fun p => Png.store (f p)) pngData)
  = (2 * n)%nat.
Proof.
  revert pngData. induction n as [| n IH]; intros pngData; [reflexivity |].
  cbn [Png.loop]. rewrite length_app, IH. simpl. lia.
Qed.

(** *** RGB and RGBA, 8 bits *)

(** C8, where it fails: the opaque pixel (0, 4, 0). The code drops bit 2
    of the green channel and stores 0x0000, the claim's formula keeps it
    and gives 0x0020. *)
Lemma rgb8_green_loses_bit_2 :
  Png.rgb8_pixel Png.UPNG_RGB8 [0; 4; 0] = 0
  /\ claimed_rgb8_pixel Png.UPNG_RGB8 [0; 4; 0] = 32
  /\ ~ rgb8_as_claimed.
Proof.
  split; [reflexivity |]. split; [reflexivity |].
  intros claim.
  specialize (claim Png.UPNG_RGB8 [0; 4; 0] (or_introl eq_refl)).
  vm_compute in claim. discriminate.
Qed.

(** C8, amended. Red and blue are the alpha-scaled channels shifted right
    by 3; green is the alpha-scaled channel shifted right by 3 and back
    left by 1, with its top bit repeated in bit 0 ([g |= g >> 5]); the
    three make one 5-6-5 value, stored low byte first, and pixel [i] of
    the tile is made from bytes [3 i ..] (RGB) or [4 i ..] (RGBA) of the
    decoded buffer. *)
Theorem rgb8_pixel_fields fmt pngData :
  let a := match fmt with Png.UPNG_RGB8 => 255 | _ => Png.at8 pngData 3 end in
  let r := Png.at8 pngData 0 * a / 255 in
  let g := Png.at8 pngData 1 * a / 255 in
  let b := Png.at8 pngData 2 * a / 255 in
  let v := Png.rgb8_pixel fmt pngData in
  v = Png.RGB565 (Z.shiftr r 3)
        (Z.lor (Z.shiftl (Z.shiftr g 3) 1) (Z.shiftr g 7)) (Z.shiftr b 3)
  /\ Png.store v = [v mod 256; v / 256]
  /\ (forall buffer i, (i < Png.pixels)%nat ->
      exists tile,
        Png.transcode Png.UPNG_RGB8 buffer = Some tile
        /\ firstn 2 (skipn (2 * i) tile)
           = Png.store (Png.rgb8_pixel Png.UPNG_RGB8 (skipn (i * 3) buffer)))
  /\ (forall buffer i, (i < Png.pixels)%nat ->
      exists tile,
        Png.transcode Png.UPNG_RGBA8 buffer = Some tile
        /\ firstn 2 (skipn (2 * i) tile)
           = Png.store
               (Png.rgb8_pixel Png.UPNG_RGBA8 (skipn (i * 4) buffer))).
Proof.
  cbv zeta.
  set (a := match fmt with Png.UPNG_RGB8 => 255 | _ => Png.at8 pngData 3 end).
  assert (Ha : 0 <= a < 256)
    by (subst a; destruct fmt; try apply at8_range; lia).
  pose proof (scaled_range _ _ (at8_range pngData 0) Ha) as Hr.
  pose proof (scaled_range _ _ (at8_range pngData 1) Ha) as Hg.
  pose proof (scaled_range _ _ (at8_range pngData 2) Ha) as Hb.
  destruct (red_blue_field _ Hr) as [Er Br].
  destruct (red_blue_field _ Hb) as [Eb Bb].
  destruct (green_field_code _ Hg) as [Eg Bg]. cbv zeta in Eg.
  assert (E : Png.rgb8_pixel fmt pngData
              = Png.RGB565 (Z.shiftr (Png.at8 pngData 0 * a / 255) 3)
                  (green_field (Png.at8 pngData 1 * a / 255))
                  (Z.shiftr (Png.at8 pngData 2 * a / 255) 3)).
  { unfold Png.rgb8_pixel. fold a. rewrite Er, Eb, Eg.
    apply RGB565_fits; assumption. }
  split; [exact E |]. split.
  - apply store_bytes. rewrite E, <- RGB565_fits by assumption.
    apply Z.mod_pos_bound. lia.
  - split; intros buffer i Hi; eexists; (split; [reflexivity |]);
      apply loop_one_pixel; exact Hi.
Qed.

Lemma rgb8_pixel_fields_witness :
  Png.rgb8_pixel Png.UPNG_RGBA8 [255; 255; 255; 128] = 33840
  /\ exists tile,
       Png.transcode Png.UPNG_RGB8 [8; 16; 255; 0; 4; 0] = Some tile
       /\ firstn 2 (skipn 2 tile)
          = Png.store (Png.rgb8_pixel Png.UPNG_RGB8 [0; 4; 0]).
Proof.
  split; [reflexivity |].
  destruct (rgb8_pixel_fields Png.UPNG_RGB8 [0; 4; 0]) as (_ & _ & H & _).
  apply (H [8; 16; 255; 0; 4; 0] 1%nat). unfold Png.pixels. lia.
Defined.

(** *** Grayscale, 8 bits *)

Lemma lum8_pixel_byte x :
  0 <= x < 256 ->
  Png.lum8_pixel [x] = expand_nibble (Z.land (Z.shiftr x 4) 15)
  /\ Png.lum4_pixel x 4 = expand_nibble (Z.land (Z.shiftr x 4) 15)
  /\ 0 <= Png.lum8_pixel [x] < 65536.
Proof.
  intros Hx.
  pose proof (byte_cases
    (fun x =>
       (Png.lum8_pixel [x] =? expand_nibble (Z.land (Z.shiftr x 4) 15))
       && (Png.lum4_pixel x 4 =? expand_nibble (Z.land (Z.shiftr x 4) 15))
       && (0 <=? Png.lum8_pixel [x]) && (Png.lum8_pixel [x] <? 65536))
    ltac:(vm_compute; reflexivity) x Hx) as H.
  cbv beta in H. rewrite !andb_true_iff in H. lia.
Qed.

Lemma lum8_pixel_head pngData :
  Png.lum8_pixel pngData = Png.lum8_pixel [Png.at8 pngData 0].
Proof.
  unfold Png.lum8_pixel.
  replace (Png.at8 [Png.at8 pngData 0] 0) with (Png.at8 pngData 0);
    [reflexivity |].
  unfold Png.at8 at 2. cbn [nth]. unfold Png.at8, C.u8.
  rewrite Z.mod_mod by lia. reflexivity.
Qed.

(** C9. An 8-bit grayscale byte gives one pixel, made from its high
    nibble alone by the expansion of the 4-bit case and stored low byte
    first; bytes with the same high nibble give the same pixel; pixel [i]
    of the tile comes from byte [i] of the decoded buffer. *)
Theorem lum8_uses_high_nibble pngData :
  let byte := Png.at8 pngData 0 in
  let v := Z.land (Z.shiftr byte 4) 15 in
  let r := Z.lor (Z.shiftl v 1) (Z.shiftr v 3) in
  let g := Z.lor (Z.shiftl r 1) (Z.shiftr r 4) in
  let b := r in
  let pixel := Png.lum8_pixel pngData in
  pixel = Png.RGB565 r g b
  /\ pixel = Png.lum4_pixel byte 4
  /\ Png.store pixel = [pixel mod 256; pixel / 256]
  /\ (forall other,
        Z.shiftr (Png.at8 other 0) 4 = Z.shiftr byte 4 ->
        Png.lum8_pixel other = pixel)
  /\ (forall buffer i, (i < Png.pixels)%nat ->
      exists tile,
        Png.transcode Png.UPNG_LUMINANCE8 buffer = Some tile
        /\ firstn 2 (skipn (2 * i) tile)
           = Png.store (Png.lum8_pixel (skipn (i * 1) buffer))).
Proof.
  cbv zeta.
  destruct (lum8_pixel_byte _ (at8_range pngData 0)) as (E8 & E4 & R).
  rewrite <- lum8_pixel_head in E8, R.
  repeat apply conj.
  - exact E8.
  - rewrite E8, E4. reflexivity.
  - apply store_bytes, R.
  - intros other H.
    destruct (lum8_pixel_byte _ (at8_range other 0)) as (E & _ & _).
    rewrite <- lum8_pixel_head in E. rewrite E, E8, H. reflexivity.
  - intros buffer i Hi. eexists. split; [reflexivity |].
    apply loop_one_pixel, Hi.
Qed.

Lemma lum8_uses_high_nibble_witness :
  Png.lum8_pixel [175] = Png.lum8_pixel [160]
  /\ exists tile,
       Png.transcode Png.UPNG_LUMINANCE8 [0; 175; 255] = Some tile
       /\ firstn 2 (skipn 2 tile) = Png.store (Png.lum8_pixel [175; 255]).
Proof.
  destruct (lum8_uses_high_nibble [160]) as (_ & _ & _ & Hn & Ht).
  split.
  - apply (Hn [175]). reflexivity.
  - apply (Ht [0; 175; 255] 1%nat). unfold Png.pixels. lia.
Defined.

(** ** Fixed-size text fields *)

Lemma strncpy_text_field s n :
  C.strncpy (C.bytes_of_string s) n = text_field n s.
Proof.
  unfold text_field. generalize (C.bytes_of_string s) as src.
  induction n as [| n IH]; intros src; [reflexivity |].
  destruct src as [| c t]; cbn [C.strncpy]; [reflexivity |].
  rewrite IH. reflexivity.
Qed.

Lemma bytes_of_string_length s :
  List.length (C.bytes_of_string s) = String.length s.
Proof.
  unfold C.bytes_of_string. rewrite length_map.
  induction s as [| c s IH]; simpl; congruence.
Qed.

Lemma text_field_length n s : List.length (text_field n s) = n.
Proof. rewrite <- strncpy_text_field. apply strncpy_length. Qed.

Lemma text_field_full n s :
  (n <= String.length s)%nat ->
  text_field n s = firstn n (C.bytes_of_string s).
Proof.
  intros H. unfold text_field. rewrite bytes_of_string_length.
  replace (n - String.length s)%nat with 0%nat by lia.
  apply app_nil_r.
Qed.

Lemma header_field src :
  firstn kHeaderSize (header_of src) = text_field kHeaderSize src.
Proof.
  unfold header_of. rewrite strncpy_text_field.
  apply firstn_exact, text_field_length.
Qed.

Lemma scan_options_header opts cfg cfg' current :
  scan_options opts cfg = inl cfg' ->
  sHeader cfg = header_of current ->
  sHeader cfg' = header_of (chosen_header opts current).
Proof.
  revert cfg current. induction opts as [| o opts IH]; intros cfg current H E.
  - inversion H; subst. exact E.
  - destruct o; cbn [scan_options chosen_header] in *; try discriminate;
      eapply IH; try eassumption; reflexivity.
Qed.

(** A successful run starts the file with the header and the description
    fields. *)
Lemma image_starts_with_text_fields w opts description tileFileName args f :
  status (main w opts (description :: tileFileName :: args)) = RET_OK ->
  firmware (main w opts (description :: tileFileName :: args)) = Some f ->
  exists rest,
    Stdio.written f
    = text_field kHeaderSize (chosen_header opts kDefaultHeader)
        ++ text_field kFirmwareDescriptionSize description ++ rest.
Proof.
  intros Hs Hf.
  destruct (main_assembles _ _ _ _ Hf)
    as (cfg & d' & t' & a' & st & r & Ho & Ea & E & -> & S).
  inversion Ea; subst d' t' a'. clear Ea.
  rewrite S in Hs. destruct r as [u | c d0]; [clear Hs S |].
  2:{ rewrite assemble_split in E.
      apply bind_inv in E as [(u & st1 & E1 & E2) | (c' & d' & E1 & E2)].
      - apply write_checksum_inv in E2 as [(E2 & _) | E2];
          inversion E2; subst; discriminate.
      - apply sound_body_of in E1 as (_ & _ & N). inversion E2; subst.
        simpl in N. congruence. }
  unfold assemble in E.
  apply bind_inv in E as [(u1 & st1 & E1 & E) | (? & ? & _ & ?)];
    [| discriminate].
  apply write_or_fail_ok in E1 as (_ & W1 & _).
  apply bind_inv in E as [(u2 & st2 & E2 & E) | (? & ? & _ & ?)];
    [| discriminate].
  apply write_or_fail_ok in E2 as (_ & W2 & _).
  apply bind_inv in E as [(sBuffer & st3 & E3 & E) | (? & ? & _ & ?)];
    [| discriminate].
  apply (sound_silent _ (silent_lift _ (refusal_read_tile _ _))) in E3
    as ((e3 & W3) & _).
  apply bind_inv in E as [(u4 & st4 & E4 & E) | (? & ? & _ & ?)];
    [| discriminate].
  apply write_or_fail_ok in E4 as (_ & W4 & _).
  apply bind_inv in E as [(u5 & st5 & E5 & E) | (? & ? & _ & ?)];
    [| discriminate].
  apply sound_partitions in E5 as ((e5 & W5) & _).
  apply write_checksum_inv in E as [(_ & W6 & _) | ?]; [| discriminate].
  rewrite W6, W5, W4, W3, W2, W1. cbn [Stdio.written Stdio.fresh app].
  rewrite (scan_options_header _ _ _ kDefaultHeader Ho eq_refl).
  rewrite header_field. unfold description_of. rewrite strncpy_text_field.
  rewrite <- !app_assoc. eexists. reflexivity.
Qed.

(** Bytes 4 to 19 of an entry are its label. *)
Lemma label_field part :
  List.length (label part) = 16%nat ->
  firstn 16 (skipn 4 (part_bytes part)) = label part.
Proof.
  intros H. unfold part_bytes.
  rewrite skipn_exact by reflexivity. apply firstn_exact, H.
Qed.



Lemma checksum_covers_image_witness :
  exists chunks,
    let body := List.concat chunks in
    let crc := Crc32.crc32 0 body in
    Stdio.trace demo_image = chunks ++ [C.le32 crc]
    /\ Stdio.written demo_image = body ++ C.le32 crc
    /\ C.le_value (C.le32 crc) = crc
    /\ crc = fold_left (fun c chunk => C.u32 (Crc32.crc32 c chunk)) chunks 0.
Proof.
  apply (checksum_covers_image demo_world [opt_H "MYFW"]
           ["test"; "tile.raw"; "app"; "factory"; "auto"; "app"; "app.bin"]
           demo_image);
    vm_compute; reflexivity.
Defined.

(** The scenario end to end: 24 + 40 + 8256 + 28 + 4 + 1 + 4 bytes, a
    declared length of 65536 at offset 8344, and the checksum of the first
    8353 bytes in the last four. *)
Example demo_run_image :
  status demo_run = RET_OK
  /\ C.size (Stdio.written demo_image) = 8357
  /\ C.le_value (C.take (C.drop (Stdio.written demo_image) 8344) 4) = 65536
  /\ C.drop (Stdio.written demo_image) 8353
     = C.le32 (Crc32.crc32 0 (C.take (Stdio.written demo_image) 8353)).
Proof. vm_compute. repeat split; reflexivity. Qed.

(** ** The partition type *)

Lemma strtoul_scans_to s v e :
  scans_to s v = true -> 0 <= v <= C.ULONG_MAX ->
  Libc.strtoul s e = Libc.mkStrtoul v EmptyString true e.
Proof.
  unfold scans_to, Libc.strtoul.
  destruct (Libc.scan s) as [[[neg acc] n] rest].
  rewrite !andb_true_iff, !negb_true_iff.
  intros (((Hn & Ha) & Hc) & Hr) Hv.
  apply Z.eqb_eq in Ha. apply String.eqb_eq in Hr. subst.
  destruct n as [| n]; [discriminate |].
  destruct (Z.ltb_spec C.ULONG_MAX v); [lia | reflexivity].
Qed.

Lemma numerals_scan v :
  0 <= v < 256 ->
  forall s, In s (numerals v) ->
    scans_to s v = true /\ C.streq s "app" = false
    /\ C.streq s "data" = false.
Proof.
  intros Hv.
  pose proof (byte_cases
    (fun v => forallb
       (fun s => scans_to s v && negb (C.streq s "app")
                 && negb (C.streq s "data")) (numerals v))
    ltac:(vm_compute; reflexivity) v Hv) as H.
  cbv beta in H. rewrite forallb_forall in H.
  intros s Hs. specialize (H s Hs).
  rewrite !andb_true_iff, !negb_true_iff in H. tauto.
Qed.

(** What [parse_type] makes of an argument that is neither [app] nor
    [data] and that [strtoul] converts to a value of 8 bits. *)
Lemma parse_type_numeric arg part st :
  C.streq arg "app" = false -> C.streq arg "data" = false ->
  let r := Libc.strtoul arg (errno st) in
  Libc.moved r = true -> 0 <= Libc.value r < 256 ->
  parse_type arg part st
  = (if (2 <=? Libc.value r) && (Libc.value r <=? 63)
     then Abort RET_INVALID_PARAMS TypeReserved
     else Ok (set_type part (Libc.value r)),
     mkState (checksum st) (file st) (Libc.errno_after r)).
Proof.
  intros Ea Ed r Hm Hv. unfold parse_type. rewrite Ea, Ed.
  cbv [bind ret RETURN failing_if strtoul errno_is]. fold r.
  rewrite Hm. cbn [negb].
  assert (Eu : C.u8 (Libc.value r) = Libc.value r)
    by (apply Z.mod_small; assumption).
  unfold PARTITION_APP, PARTITION_DATA, C.ULONG_MAX.
  set (v := Libc.value r) in *.
  repeat match goal with
  | _ => progress change (type (set_type part v)) with (C.u8 v); rewrite Eu
  | _ => progress cbn [negb andb]
  | |- context [(?a =? ?b)] => destruct (Z.eqb_spec a b); try lia
  | |- context [(?a <? ?b)] => destruct (Z.ltb_spec a b); try lia
  | |- context [(?a <=? ?b)] => destruct (Z.leb_spec a b); try lia
  end; reflexivity.
Qed.

(** C5. [app] is type 0 and [data] type 1; a decimal or hexadecimal
    numeral of a value from 0x02 to 0x3F makes the run abort with the
    reserved-type message and [RET_INVALID_PARAMS], the file untouched;
    a numeral of 0, 1 or of a value from 0x40 to 0xFF is accepted as that
    type. The same holds of any argument [strtoul] converts to such a
    value. *)
Theorem type_parsing part st :
  fst (parse_type "app" part st) = Ok (set_type part 0)
  /\ fst (parse_type "data" part st) = Ok (set_type part 1)
  /\ (forall v s, 0 <= v < 256 -> In s (numerals v) ->
        let '(r, st') := parse_type s part st in
        file st' = file st /\ checksum st' = checksum st
        /\ (2 <= v <= 63 -> r = Abort RET_INVALID_PARAMS TypeReserved)
        /\ (v < 2 \/ 64 <= v -> r = Ok (set_type part v)))
  /\ (forall arg v,
        C.streq arg "app" = false -> C.streq arg "data" = false ->
        Libc.moved (Libc.strtoul arg (errno st)) = true ->
        Libc.value (Libc.strtoul arg (errno st)) = v ->
        let '(r, st') := parse_type arg part st in
        file st' = file st /\ checksum st' = checksum st
        /\ (2 <= v <= 63 -> r = Abort RET_INVALID_PARAMS TypeReserved)
        /\ (64 <= v <= 255 -> r = Ok (set_type part v))).
Proof.
  split; [reflexivity |]. split; [reflexivity |]. split.
  - intros v s Hv Hs.
    destruct (numerals_scan v Hv s Hs) as (Hscan & Ea & Ed).
    pose proof (strtoul_scans_to s v (errno st) Hscan
                  ltac:(unfold C.ULONG_MAX; lia)) as E.
    pose proof (parse_type_numeric s part st Ea Ed) as P.
    cbv zeta in P. rewrite E in P. cbn [Libc.moved Libc.value] in P.
    rewrite (P eq_refl Hv). cbn [file checksum].
    repeat apply conj; try reflexivity.
    + intros H. destruct (Z.leb_spec 2 v), (Z.leb_spec v 63); try lia.
      reflexivity.
    + intros H. destruct (Z.leb_spec 2 v), (Z.leb_spec v 63); try lia;
        reflexivity.
  - intros arg v Ea Ed Hm Ev.
    destruct (parse_type arg part st) as [r st'] eqn:E.
    pose proof (silent_parse_type _ _ _ _ _ E) as (F & K & _).
    split; [exact F |]. split; [exact K |].
    split; intros H;
      pose proof (parse_type_numeric arg part st Ea Ed) as P;
      cbv zeta in P; rewrite Ev in P; rewrite (P Hm ltac:(lia)) in E;
      destruct (Z.leb_spec 2 v), (Z.leb_spec v 63); try lia;
      cbn [andb] in E; inversion E; reflexivity.
Qed.

Lemma type_parsing_witness :
  fst (parse_type "0x05" part_zero demo_state)
  = Abort RET_INVALID_PARAMS TypeReserved
  /\ fst (parse_type "0xff" part_zero demo_state)
     = Ok (set_type part_zero 255).
Proof.
  destruct (type_parsing part_zero demo_state) as (_ & _ & H & G).
  split.
  - specialize (G "0x05" 5 eq_refl eq_refl eq_refl eq_refl).
    destruct (parse_type "0x05" part_zero demo_state) as [r st'].
    apply G. lia.
  - specialize (H 255 "0xff" ltac:(lia) ltac:(vm_compute; tauto)).
    destruct (parse_type "0xff" part_zero demo_state) as [r st'].
    apply H. lia.
Defined.

(** ** The partition size and its suffix *)

(** C4, as the code has it. The suffix multiplies [part.length] while it
    still is zero and the number is assigned over it afterwards, so the
    declared length is the number itself: 64k is refused as unaligned
    although 64 * 1024 is a multiple of 65,536, 1m likewise, and 65536k
    is taken as 65,536 bytes. The whole run behaves the same. *)
Theorem size_suffix_not_applied st :
  fst (parse_size "64k" part_zero st)
  = Abort RET_INVALID_PARAMS SizeNotAligned
  /\ fst (parse_size "1M" part_zero st)
     = Abort RET_INVALID_PARAMS SizeNotAligned
  /\ fst (parse_size "65536k" part_zero st) = Ok (set_length part_zero 65536)
  /\ fst (parse_size "65536" part_zero st) = Ok (set_length part_zero 65536)
  /\ (64 * 1024) mod 65536 = 0
  /\ 65536 * 1024 <> 65536
  /\ (let r := main demo_world []
                 ["test"; "tile.raw"; "app"; "factory"; "64k"; "app";
                  "app.bin"] in
      status r = RET_INVALID_PARAMS /\ message r = Some SizeNotAligned).
Proof. vm_compute. repeat split; congruence. Qed.

(** An accepted size never depends on the suffix. *)
Lemma accepted_size_is_the_number arg part st p st' :
  parse_size arg part st = (Ok p, st') ->
  length p = Libc.value (Libc.strtoul arg (errno st)).
Proof. intros H. apply parse_size_ok in H. tauto. Qed.

(** ** The partition subtype *)

Lemma strtoul_errno arg e :
  Libc.moved (Libc.strtoul arg e) = Libc.moved (Libc.strtoul arg 0)
  /\ Libc.endPtr (Libc.strtoul arg e) = Libc.endPtr (Libc.strtoul arg 0)
  /\ Libc.value (Libc.strtoul arg e) = Libc.value (Libc.strtoul arg 0)
  /\ (Libc.value (Libc.strtoul arg e) <> 0 ->
      Libc.moved (Libc.strtoul arg e) = true).
Proof.
  unfold Libc.strtoul. destruct (Libc.scan arg) as [[[neg acc] n] rest].
  destruct n; [cbn; tauto |].
  destruct (C.ULONG_MAX <? acc); cbn; tauto.
Qed.

Ltac split_tests :=
  repeat match goal with
  | |- context [(?a =? ?b)] => destruct (Z.eqb_spec a b); try lia
  | |- context [(?a <? ?b)] => destruct (Z.ltb_spec a b); try lia
  | |- context [(?a <=? ?b)] => destruct (Z.leb_spec a b); try lia
  | |- context [negb ?b] => is_var b; destruct b
  | |- context [if ?b then _ else _] => is_var b; destruct b
  | _ => progress cbn [negb andb orb]
  end.

(** [endPtr] points into the argument. *)
Lemma skip_space_suffix s :
  exists pre, s = String.append pre (Libc.skip_space s).
Proof.
  induction s as [| c s [pre IH]]; [exists EmptyString; reflexivity |].
  cbn [Libc.skip_space]. destruct (Libc.isspace (C.code c)).
  - exists (String c pre). cbn [String.append]. rewrite <- IH. reflexivity.
  - exists EmptyString. reflexivity.
Qed.

Lemma digits_suffix base s acc n :
  exists pre, s = String.append pre (snd (Libc.digits base s acc n)).
Proof.
  revert acc n. induction s as [| c s IH]; intros acc n;
    [exists EmptyString; reflexivity |].
  cbn [Libc.digits]. cbv zeta.
  destruct (Libc.digit_value (C.code c) <? base).
  - destruct (IH (acc * base + Libc.digit_value (C.code c)) (S n))
      as [pre E].
    exists (String c pre). cbn [String.append]. rewrite <- E. reflexivity.
  - exists EmptyString. reflexivity.
Qed.

Lemma append_assoc a b c :
  String.append (String.append a b) c = String.append a (String.append b c).
Proof.
  induction a as [| x a IH]; cbn; [reflexivity | rewrite IH; reflexivity].
Qed.

Lemma scan_suffix nptr :
  exists pre, nptr = String.append pre (snd (Libc.scan nptr)).
Proof.
  unfold Libc.scan.
  destruct (skip_space_suffix nptr) as [p1 E1].
  set (s1 := Libc.skip_space nptr) in *.
  assert (H2 : exists neg s2 p2,
             match s1 with
             | String "-" t => (true, t)
             | String "+" t => (false, t)
             | _ => (false, s1)
             end = (neg, s2) /\ s1 = String.append p2 s2).
  { destruct s1 as [| c t]; [exists false, EmptyString, EmptyString; auto |].
    destruct (ascii_dec c "-") as [-> | N1];
      [exists true, t, "-"; auto |].
    destruct (ascii_dec c "+") as [-> | N2];
      [exists false, t, "+"; auto |].
    exists false, (String c t), EmptyString. split; [| reflexivity].
    destruct c as [[] [] [] [] [] [] [] []]; try reflexivity; congruence. }
  destruct H2 as (neg & s2 & p2 & -> & E2).
  assert (H3 : exists base s3 p3,
             match s2 with
             | String "0" (String x t) =>
                 if ((C.code x =? 120) || (C.code x =? 88))
                    && (Libc.digit_value (C.char_at t 0) <? 16)
                 then (16, t) else (8, s2)
             | _ => (10, s2)
             end = (base, s3) /\ s2 = String.append p3 s3).
  { destruct s2 as [| c [| x t]];
      try (exists 10, EmptyString, EmptyString; split; reflexivity).
    - exists 10, (String c EmptyString), EmptyString. split; [| reflexivity].
      destruct c as [[] [] [] [] [] [] [] []]; reflexivity.
    - destruct (ascii_dec c "0") as [-> | N0].
      + destruct (((C.code x =? 120) || (C.code x =? 88))
                  && (Libc.digit_value (C.char_at t 0) <? 16)).
        * exists 16, t, (String "0" (String x EmptyString)). auto.
        * exists 8, (String "0" (String x t)), EmptyString. auto.
      + exists 10, (String c (String x t)), EmptyString.
        split; [| reflexivity].
        destruct c as [[] [] [] [] [] [] [] []]; try reflexivity; congruence. }
  destruct H3 as (base & s3 & p3 & -> & E3).
  destruct (digits_suffix base s3 0 0) as [p4 E4].
  destruct (Libc.digits base s3 0 0) as [[acc n] rest]. cbn [snd] in *.
  exists (String.append p1 (String.append p2 (String.append p3 p4))).
  rewrite !append_assoc, <- E4, <- E3, <- E2. exact E1.
Qed.

Lemma endPtr_suffix arg e :
  exists pre, arg = String.append pre (Libc.endPtr (Libc.strtoul arg e)).
Proof.
  unfold Libc.strtoul. destruct (scan_suffix arg) as [pre E].
  destruct (Libc.scan arg) as [[[neg acc] n] rest]. cbn [snd] in E.
  destruct n; [exists EmptyString; reflexivity |].
  destruct (C.ULONG_MAX <? acc); exists pre; exact E.
Qed.

Lemma c_string_suffix pre s :
  c_string (String.append pre s) -> c_string s.
Proof.
  unfold c_string. induction pre as [| c pre IH]; cbn; [auto |].
  intros H. apply IH. exact (Forall_inv_tail H).
Qed.

Lemma wholly_numeric_code arg v :
  c_string arg -> (wholly_numeric arg v <-> stops_at_terminator arg v).
Proof.
  intros Hc. unfold wholly_numeric, stops_at_terminator. cbv zeta.
  destruct (endPtr_suffix arg 0) as [pre E].
  rewrite E in Hc. apply c_string_suffix in Hc.
  destruct (Libc.endPtr (Libc.strtoul arg 0)) as [| c rest].
  - cbn. tauto.
  - pose proof (Forall_inv Hc) as N. cbv beta in N.
    change (C.char_at (String c rest) 0) with (C.code c).
    split; intros (? & H & ?); [discriminate H | contradiction].
Qed.

Lemma numeric_subtype_accepts arg part st v :
  (exists p st', numeric_subtype arg part st = (Ok p, st') /\ subtype p = v)
  <-> (stops_at_terminator arg v /\ 0 <= v < 256
       /\ (type part = PARTITION_APP -> v = 0 \/ 16 <= v <= 31)
       /\ (type part = PARTITION_DATA -> v <= 2)).
Proof.
  unfold stops_at_terminator, numeric_subtype.
  cbv [bind ret RETURN failing_if strtoul errno_is]. cbv zeta.
  destruct (strtoul_errno arg (errno st)) as (<- & <- & <- & Hmv).
  change (type (set_subtype part (Libc.value (Libc.strtoul arg (errno st)))))
    with (type part).
  change (subtype
            (set_subtype part (Libc.value (Libc.strtoul arg (errno st)))))
    with (C.u8 (Libc.value (Libc.strtoul arg (errno st)))).
  pose proof (u8_range (Libc.value (Libc.strtoul arg (errno st)))) as Hu.
  unfold C.u8 in *.
  generalize dependent (Libc.value (Libc.strtoul arg (errno st))).
  generalize (C.char_at (Libc.endPtr (Libc.strtoul arg (errno st))) 0).
  generalize (Libc.moved (Libc.strtoul arg (errno st))).
  generalize (Libc.errno_after (Libc.strtoul arg (errno st))).
  unfold PARTITION_APP, PARTITION_DATA, APP_FACTORY, C.LONG_MAX, C.ERANGE.
  generalize (type part). clear.
  intros T e m c V Hmv Hu. split.
  - intros (p & st' & Hres & Hp). revert Hres.
    split_tests; intros Hres; try discriminate Hres;
      inversion Hres; subst; clear Hres; cbn [subtype set_subtype];
      unfold C.u8; repeat apply conj; auto; try lia;
      try (apply Hmv; lia).
  - intros ((Hm & Hc & ->) & Hr & Ha & Hd). subst m c.
    rewrite !(Z.mod_small v 256) by lia.
    split_tests; try (exfalso; lia);
      eexists; eexists; (split; [reflexivity |]);
      cbn [subtype set_subtype]; unfold C.u8; apply Z.mod_small; lia.
Qed.

Lemma code_inj a b : C.code a = C.code b -> a = b.
Proof.
  unfold C.code. intros H. apply N2Z.inj in H.
  rewrite <- (ascii_N_embedding a), <- (ascii_N_embedding b), H.
  reflexivity.
Qed.

Lemma digit_char lo hi c :
  48 <= lo -> hi <= 57 -> lo <= C.code c <= hi ->
  In c ["0"; "1"; "2"; "3"; "4"; "5"; "6"; "7"; "8"; "9"]%char.
Proof.
  intros Hlo Hhi Hc.
  assert (H : C.code c = 48 \/ C.code c = 49 \/ C.code c = 50
              \/ C.code c = 51 \/ C.code c = 52 \/ C.code c = 53
              \/ C.code c = 54 \/ C.code c = 55 \/ C.code c = 56
              \/ C.code c = 57) by lia.
  cbn [In].
  repeat (destruct H as [H | H];
          [match type of H with
           | _ = 48 => change 48 with (C.code "0") in H
           | _ = 49 => change 49 with (C.code "1") in H
           | _ = 50 => change 50 with (C.code "2") in H
           | _ = 51 => change 51 with (C.code "3") in H
           | _ = 52 => change 52 with (C.code "4") in H
           | _ = 53 => change 53 with (C.code "5") in H
           | _ = 54 => change 54 with (C.code "6") in H
           | _ = 55 => change 55 with (C.code "7") in H
           | _ = 56 => change 56 with (C.code "8") in H
           end; apply code_inj in H; subst; tauto |]).
  change 57 with (C.code "9") in H. apply code_inj in H; subst; tauto.
Qed.

Lemma has_prefix_ota arg :
  C.has_prefix "ota_" arg = true ->
  exists rest, arg = String "o" (String "t" (String "a" (String "_" rest))).
Proof.
  unfold C.has_prefix.
  destruct arg as [| c1 [| c2 [| c3 [| c4 rest]]]]; cbn [String.prefix];
    repeat match goal with
    | |- context [ascii_dec ?a ?b] => destruct (ascii_dec a b); subst
    end; try discriminate.
  intros _. eauto.
Qed.

(** Every name of the table goes through the [ota_] branch and comes out
    with its value. *)
Lemma ota_names_scan s v part :
  In (s, v) ota_names ->
  C.has_prefix "ota_" s = true
  /\ C.streq s "factory" = false
  /\ fst (scan_ota s part) = false
  /\ C.u8 (APP_OTA (subtype (snd (scan_ota s part)))) = v.
Proof.
  unfold ota_names. cbn [In]. intros H.
  repeat (destruct H as [H | H];
          [inversion H; subst; repeat split; reflexivity |]).
  contradiction.
Qed.

(** What gets through the [ota_] branch is a name of the table. *)
Lemma scan_ota_shape arg part :
  c_string arg -> C.has_prefix "ota_" arg = true ->
  fst (scan_ota arg part) = false ->
  exists v, In (arg, v) ota_names.
Proof.
  intros Hc Hp Hv. apply has_prefix_ota in Hp as [rest ->].
  unfold c_string in Hc. cbn [list_ascii_of_string] in Hc.
  do 4 (apply Forall_inv_tail in Hc).
  unfold scan_ota in Hv.
  change (C.char_at (String "o" (String "t" (String "a" (String "_" rest)))) 4)
    with (C.char_at rest 0) in Hv.
  change (C.char_at (String "o" (String "t" (String "a" (String "_" rest)))) 5)
    with (C.char_at rest 1) in Hv.
  change (C.char_at (String "o" (String "t" (String "a" (String "_" rest)))) 6)
    with (C.char_at rest 2) in Hv.
  destruct rest as [| d1 r1].
  { discriminate Hv. }
  change (C.char_at (String d1 r1) 0) with (C.code d1) in Hv.
  change (C.char_at (String d1 r1) 1) with (C.char_at r1 0) in Hv.
  change (C.char_at (String d1 r1) 2) with (C.char_at r1 1) in Hv.
  destruct (Z.ltb_spec (C.code d1) 48) as [L1 | L1]; [discriminate Hv |].
  destruct (Z.ltb_spec 57 (C.code d1)) as [L2 | L2]; [discriminate Hv |].
  cbn [orb] in Hv.
  pose proof (digit_char 48 57 d1 ltac:(lia) ltac:(lia) ltac:(lia)) as D1.
  destruct r1 as [| d2 r2].
  { (* one digit *)
    cbn [In] in D1. unfold ota_names.
    repeat (destruct D1 as [<- | D1]; [eexists; cbn [In]; tauto |]).
    contradiction. }
  cbn [list_ascii_of_string] in Hc.
  pose proof (Forall_inv (Forall_inv_tail Hc)) as N2. cbv beta in N2.
  change (C.char_at (String d2 r2) 0) with (C.code d2) in Hv.
  change (C.char_at (String d2 r2) 1) with (C.char_at r2 0) in Hv.
  destruct (Z.eqb_spec (C.code d2) 0) as [E | _]; [contradiction |].
  cbn [negb] in Hv.
  change (subtype (set_subtype part (C.code d1 - 48)))
    with (C.u8 (C.code d1 - 48)) in Hv.
  destruct r2 as [| d3 r3].
  2:{ pose proof (Forall_inv (Forall_inv_tail (Forall_inv_tail Hc))) as N3.
      cbv beta in N3.
      change (C.char_at (String d3 r3) 0) with (C.code d3) in Hv.
      destruct (Z.eqb_spec (C.code d3) 0) as [E | _]; [contradiction |].
      discriminate Hv. }
  change (C.char_at EmptyString 0) with 0 in Hv. cbn [Z.eqb negb orb] in Hv.
  destruct (Z.eqb_spec (C.u8 (C.code d1 - 48)) 1) as [E1 | _];
    [| discriminate Hv].
  destruct (Z.ltb_spec (C.code d2) 48) as [M1 | M1]; [discriminate Hv |].
  destruct (Z.ltb_spec 53 (C.code d2)) as [M2 | M2]; [discriminate Hv |].
  assert (C.code d1 = 49).
  { unfold C.u8 in E1. rewrite Z.mod_small in E1; lia. }
  change 49 with (C.code "1") in H. apply code_inj in H. subst d1.
  pose proof (digit_char 48 53 d2 ltac:(lia) ltac:(lia) ltac:(lia)) as D2.
  cbn [In] in D2. unfold ota_names.
  repeat (destruct D2 as [<- | D2];
          [first [ eexists; cbn [In]; tauto
                 | exfalso; vm_compute in M2; congruence ] |]).
  contradiction.
Qed.

Lemma ota_not_numeric arg v :
  C.has_prefix "ota_" arg = true -> ~ wholly_numeric arg v.
Proof.
  intros Hp (Hm & _). apply has_prefix_ota in Hp as [rest ->].
  discriminate Hm.
Qed.

Lemma streq_eq a b : C.streq a b = true -> a = b.
Proof. apply String.eqb_eq. Qed.

(** C6. Which subtype arguments a partition accepts, and as what value:
    for [app], [factory] as 0, [ota_0] to [ota_15] as 0x10 to 0x1F, and a
    number that is 0 or from 0x10 to 0x1F; for [data], [ota], [phy] and
    [nvs] as 0, 1 and 2, and a number up to 2; for a custom type any
    number of 8 bits; nothing else. [ota_16] is refused. *)
Theorem subtype_acceptance arg part st v :
  c_string arg ->
  (type part = PARTITION_APP ->
   ((exists p st', parse_subtype arg part st = (Ok p, st') /\ subtype p = v)
    <-> (arg = "factory" /\ v = 0)
        \/ In (arg, v) ota_names
        \/ (wholly_numeric arg v /\ (v = 0 \/ 16 <= v <= 31))))
  /\ (type part = PARTITION_DATA ->
      ((exists p st',
           parse_subtype arg part st = (Ok p, st') /\ subtype p = v)
       <-> In (arg, v) data_names
           \/ (wholly_numeric arg v /\ 0 <= v <= 2)))
  /\ (64 <= type part ->
      ((exists p st',
           parse_subtype arg part st = (Ok p, st') /\ subtype p = v)
       <-> wholly_numeric arg v /\ 0 <= v <= 255))
  /\ fst (parse_subtype "ota_16" (set_type part PARTITION_APP) st)
     = Abort RET_INVALID_PARAMS InvalidOta.
Proof.
  intros Hc. repeat apply conj; [| | | reflexivity].
  - (* app *)
    intros Ht. unfold parse_subtype. rewrite Ht. cbn [Z.eqb PARTITION_APP].
    destruct (C.streq arg "factory") eqn:Ef.
    { apply streq_eq in Ef. subst arg. split.
      - intros (p & st' & H & <-). inversion H; subst. left. auto.
      - intros [(_ & ->) | [H | ((Hm & _) & _)]].
        + eexists _, _. split; reflexivity.
        + apply (ota_names_scan _ _ part) in H as (H & _). discriminate H.
        + discriminate Hm. }
    destruct (C.has_prefix "ota_" arg) eqn:Ep.
    { destruct (scan_ota arg part) as [invalidOta part'] eqn:Es. split.
      - intros (p & st' & H & <-). right; left.
        cbv [bind failing_if RETURN ret] in H.
        destruct invalidOta; [discriminate H |]. inversion H; subst.
        destruct (scan_ota_shape arg part Hc Ep) as [v' Hv'];
          [rewrite Es; reflexivity |].
        pose proof (ota_names_scan _ _ part Hv') as (_ & _ & _ & E).
        rewrite Es in E. cbn [snd] in E. cbn [subtype set_subtype].
        rewrite E. exact Hv'.
      - intros [(E & _) | [H | (H & _)]].
        + subst arg. discriminate Ef.
        + pose proof (ota_names_scan _ _ part H) as (_ & _ & Ev & E).
          rewrite Es in Ev, E. cbn [fst snd] in Ev, E. subst invalidOta.
          eexists _, _. split; [reflexivity | exact E].
        + exfalso. exact (ota_not_numeric _ _ Ep H). }
    rewrite numeric_subtype_accepts, <- (wholly_numeric_code arg v Hc). split.
    + intros (Hn & Hr & Ha & _). right; right. split; [exact Hn |].
      apply Ha, Ht.
    + intros [(E & _) | [H | (Hn & Hr)]].
      * subst arg. discriminate Ef.
      * apply (ota_names_scan _ _ part) in H as (H & _). congruence.
      * split; [exact Hn |]. split; [lia |]. split; [tauto |].
        intros Hd. rewrite Ht in Hd. discriminate Hd.
  - (* data *)
    intros Ht. unfold parse_subtype. rewrite Ht.
    change (PARTITION_DATA =? PARTITION_APP) with false.
    change (PARTITION_DATA =? PARTITION_DATA) with true. cbv iota.
    destruct (C.streq arg "ota") eqn:E1.
    { apply streq_eq in E1. subst arg. split.
      - intros (p & st' & H & <-). inversion H; subst. left. cbn. tauto.
      - intros [H | ((Hm & _) & _)]; [| discriminate Hm].
        cbn [In data_names] in H.
        destruct H as [H | [H | [H | []]]]; inversion H; subst.
        eexists _, _. split; reflexivity. }
    destruct (C.streq arg "phy") eqn:E2.
    { apply streq_eq in E2. subst arg. split.
      - intros (p & st' & H & <-). inversion H; subst. left. cbn. tauto.
      - intros [H | ((Hm & _) & _)]; [| discriminate Hm].
        cbn [In data_names] in H.
        destruct H as [H | [H | [H | []]]]; inversion H; subst.
        eexists _, _. split; reflexivity. }
    destruct (C.streq arg "nvs") eqn:E3.
    { apply streq_eq in E3. subst arg. split.
      - intros (p & st' & H & <-). inversion H; subst. left. cbn. tauto.
      - intros [H | ((Hm & _) & _)]; [| discriminate Hm].
        cbn [In data_names] in H.
        destruct H as [H | [H | [H | []]]]; inversion H; subst.
        eexists _, _. split; reflexivity. }
    rewrite numeric_subtype_accepts, <- (wholly_numeric_code arg v Hc). split.
    + intros (Hn & Hr & _ & Hd). right. split; [exact Hn |].
      specialize (Hd Ht). lia.
    + intros [H | (Hn & Hr)].
      * cbn [In data_names] in H.
        destruct H as [H | [H | [H | []]]]; inversion H; subst;
          discriminate.
      * split; [exact Hn |]. split; [lia |]. split; [| lia].
        intros Ha. rewrite Ht in Ha. discriminate Ha.
  - (* custom *)
    intros Ht. unfold parse_subtype, PARTITION_APP, PARTITION_DATA.
    destruct (Z.eqb_spec (type part) 0); [lia |].
    destruct (Z.eqb_spec (type part) 1); [lia |].
    rewrite numeric_subtype_accepts, <- (wholly_numeric_code arg v Hc).
    unfold PARTITION_APP, PARTITION_DATA. split.
    + intros (Hn & Hr & _). split; [exact Hn | lia].
    + intros (Hn & Hr). split; [exact Hn |]. split; [lia |].
      split; intros; lia.
Qed.

Lemma subtype_acceptance_witness :
  (exists p st',
      parse_subtype "ota_15" (set_type part_zero PARTITION_APP) demo_state
      = (Ok p, st') /\ subtype p = 31)
  /\ (exists p st',
         parse_subtype "0xAB" (set_type part_zero 64) demo_state
         = (Ok p, st') /\ subtype p = 171).
Proof.
  split.
  - destruct (subtype_acceptance "ota_15" (set_type part_zero PARTITION_APP)
                demo_state 31) as (H & _).
    + unfold c_string. simpl. repeat constructor; discriminate.
    + apply (H eq_refl). right; left. simpl. tauto.
  - destruct (subtype_acceptance "0xAB" (set_type part_zero 64)
                demo_state 171) as (_ & _ & H & _).
    + unfold c_string. simpl. repeat constructor; discriminate.
    + apply H; [change (64 <= 64); lia |]. split; [| lia].
      unfold wholly_numeric. vm_compute. tauto.
Defined.
